(** * SEM planning tool: the plan-synthesis pipeline of [main.py]

    A shallow embedding of [clean_domain], [parse_llm_json],
    [generate_pmax_themes_llm] and [generate_sem_plan] together with the
    pydantic schemas of [schemas.py], followed by the properties of the
    pipeline: volume filter, ad-group classification, theme synthesis,
    CPC statistics and bid suggestions.

    Conventions of the embedding.
    - A Python [str] is a [string]; its characters are the code points
      below 256.
    - A Python [int] is a [Z].
    - A Python [float] is [Py.float]: an exact rational, or one of the
      special values [inf], [-inf], [nan].  The binary rounding of IEEE
      doubles and the overflow of a float operation to [inf] are not
      modelled, so a value that depends on them (the cent a tie rounds
      to) is stated up to half a cent; the [OverflowError] of the
      conversion of an [int] to a [float] in the target CPC is
      modelled.
    - A Python [dict] with string keys is a [gmap string _].
    - An exception is the [Raise] outcome of [result]. *)

From Stdlib Require Import ZArith QArith Qround Qabs Lqa Ascii.
From Stdlib Require Import DecimalString DecimalNat.
From stdpp Require Import gmap strings list.

Local Open Scope Z_scope.

(** ** Python built-ins used by the source *)

Module Py.

(** *** Strings *)

(** [str.isspace] on one character (code points below 256):
    TAB..CR, FS..US, SPACE, NEL and NBSP. *)
Definition is_space (c : ascii) : bool :=
  let n := nat_of_ascii c in
  ((9 <=? n) && (n <=? 13) || (28 <=? n) && (n <=? 32)
   || (n =? 133) || (n =? 160))%nat.

(** [str.lower] on one character: A..Z and the Latin-1 capitals
    (0xC0..0xDE without the multiplication sign 0xD7). *)
Definition lower_char (c : ascii) : ascii :=
  let n := nat_of_ascii c in
  if ((65 <=? n) && (n <=? 90)
      || (192 <=? n) && (n <=? 222) && negb (n =? 215))%nat
  then ascii_of_nat (n + 32) else c.

(** [s.lower()] *)
Fixpoint lower (s : string) : string :=
  match s with
  | EmptyString => EmptyString
  | String c s' => String (lower_char c) (lower s')
  end.

(** [s.lstrip()], [s.rstrip()], [s.strip()] *)
Fixpoint lstrip (s : string) : string :=
  match s with
  | String c s' => if is_space c then lstrip s' else s
  | EmptyString => EmptyString
  end.

Definition rstrip (s : string) : string :=
  String.rev (lstrip (String.rev s)).

Definition strip (s : string) : string := rstrip (lstrip s).

(** [s.split()]: the maximal runs of non-blank characters.  [cur] is
    the run being read. *)
Fixpoint split_go (cur : string) (s : string) : list string :=
  match s with
  | EmptyString => if decide (cur = "") then [] else [cur]
  | String c s' =>
      if is_space c
      then (if decide (cur = "") then [] else [cur]) ++ split_go "" s'
      else split_go (cur +:+ String c "") s'
  end.

Definition split (s : string) : list string := split_go "" s.

(** [s.split(sep)] for a one-character separator: never empty. *)
Fixpoint split_on (sep : ascii) (s : string) : list string :=
  match s with
  | EmptyString => [""]
  | String c s' =>
      if decide (c = sep) then "" :: split_on sep s'
      else match split_on sep s' with
           | h :: t => String c h :: t
           | [] => [String c ""]
           end
  end.

(** [sub in s] *)
Fixpoint contains (sub s : string) : bool :=
  String.prefix sub s
  || match s with
     | EmptyString => false
     | String _ s' => contains sub s'
     end.

(** Removal of the non-overlapping matches of a pattern, scanning
    from the left as [str.replace(pat, "")] and [re.sub(pat, "", s)]
    do.  [match_len s] is the length of the match that starts at the
    head of [s], if there is one; [skip] counts the characters of the
    current match still to drop. *)
Fixpoint remove_go (match_len : string → option nat) (skip : nat)
    (s : string) : string :=
  match s with
  | EmptyString => EmptyString
  | String c s' =>
      match skip with
      | S k => remove_go match_len k s'
      | O =>
          match match_len s with
          | Some (S k) => remove_go match_len k s'
          | _ => String c (remove_go match_len 0 s')
          end
      end
  end.

(** [s.replace(pat, "")] for a non-empty [pat] *)
Definition remove_all (pat : string) (s : string) : string :=
  remove_go
    (λ t, if String.prefix pat t then Some (String.length pat) else None)
    0 s.

(** The regular expression [https?://] at the head of [t]. *)
Definition match_scheme (t : string) : option nat :=
  if String.prefix "https://" t then Some 8%nat
  else if String.prefix "http://" t then Some 7%nat
  else None.

(** [re.sub(r"https?://", "", s)] *)
Definition re_sub_scheme (s : string) : string :=
  remove_go match_scheme 0 s.

(** [s.find(c)] and [s.rfind(c)] for a one-character needle: the
    index of the first (last) occurrence, or -1. *)
Fixpoint find (c : ascii) (s : string) : Z :=
  match s with
  | EmptyString => -1
  | String d s' =>
      if decide (d = c) then 0
      else let i := find c s' in if i =? -1 then -1 else i + 1
  end.

Fixpoint rfind (c : ascii) (s : string) : Z :=
  match s with
  | EmptyString => -1
  | String d s' =>
      let i := rfind c s' in
      if i =? -1 then (if decide (d = c) then 0 else -1) else i + 1
  end.

(** [s[a:b]] for indices [0 <= a], [0 <= b]. *)
Definition slice (a b : Z) (s : string) : string :=
  String.substring (Z.to_nat a) (Z.to_nat (b - a)) s.

(** Truth value of a [str] and of an [int] *)
Definition truthy (s : string) : bool := bool_decide (s ≠ "").

Definition truthy_int (z : Z) : bool := bool_decide (z ≠ 0).

(** *** Floats *)

Inductive float : Type :=
| Fin (q : Q)
| PInf
| NInf
| NaN.

Definition of_int (z : Z) : float := Fin (inject_Z z).

(** Whether an [int] converts to a [float]: the doubles end at
    [2^1024 - 2^971], an [int] is rounded to the nearest of them, ties
    to even, and from [2^1024 - 2^970] on the conversion raises
    [OverflowError]. *)
Definition int_fits_float (z : Z) : bool :=
  Z.abs z <? 2 ^ 1024 - 2 ^ 970.

Definition add (x y : float) : float :=
  match x, y with
  | NaN, _ | _, NaN => NaN
  | PInf, NInf | NInf, PInf => NaN
  | PInf, _ | _, PInf => PInf
  | NInf, _ | _, NInf => NInf
  | Fin a, Fin b => Fin (a + b)
  end.

(** [n * y] for an [int] [n] and a finite constant [y]. *)
Definition mul_const (n : Z) (y : Q) : float := Fin (inject_Z n * y).

(** [x / d] for a finite positive divisor [d]: every divisor of the
    source is [2.0] or [max(1, n)]. *)
Definition div_pos (x : float) (d : Q) : float :=
  match x with
  | Fin a => Fin (a / d)
  | _ => x
  end.

(** [x < y] *)
Definition lt (x y : float) : bool :=
  match x, y with
  | NaN, _ | _, NaN => false
  | _, NInf => false
  | NInf, _ => true
  | PInf, _ => false
  | Fin _, PInf => true
  | Fin a, Fin b => if Qlt_le_dec a b then true else false
  end.

(** [min(a, b)]: [b] when [b < a], else [a]. *)
Definition min (a b : float) : float := if lt b a then b else a.

(** [sum(l)]: starts from the integer 0. *)
Definition sum (l : list float) : float := foldl add (of_int 0) l.

(** Rounding of a rational to the nearest integer, ties to even. *)
Definition round_half_even (q : Q) : Z :=
  let f := Qfloor q in
  match (q - inject_Z f ?= 1 # 2)%Q with
  | Lt => f
  | Gt => f + 1
  | Eq => if Z.even f then f else f + 1
  end.

(** [round(x, 2)], on the exact value: ties go to the even hundredth
    (a double is rarely an exact tie and goes to the nearer one). *)
Definition round2 (x : float) : float :=
  match x with
  | Fin q => Fin (round_half_even (q * 100) # 100)
  | _ => x
  end.

(** The blanks [float(s)] drops around a number: TAB..CR and SPACE,
    and NEL and NBSP, which it reads as SPACE.  The separators FS..US,
    blanks for [str.strip], are kept and make the text invalid. *)
Definition is_float_space (c : ascii) : bool :=
  let n := nat_of_ascii c in
  ((9 <=? n) && (n <=? 13) || (n =? 32) || (n =? 133) || (n =? 160))%nat.

Fixpoint lstrip_float (s : string) : string :=
  match s with
  | String c s' => if is_float_space c then lstrip_float s' else s
  | EmptyString => EmptyString
  end.

Definition strip_float (s : string) : string :=
  String.rev (lstrip_float (String.rev (lstrip_float s))).

(** [float(s)]: the grammar of the language reference,
    [[sign] (floatnumber | "inf" | "infinity" | "nan")] between
    optional blanks, with single underscores between digits. *)
Definition digit_val (c : ascii) : option Z :=
  let n := nat_of_ascii c in
  if ((48 <=? n) && (n <=? 57))%nat then Some (Z.of_nat n - 48) else None.

(** [(["_"] digit)*] after a first digit: the value read so far, the
    number of digits read, and the rest of the text. *)
Fixpoint digits_go (acc : Z) (n : nat) (s : string) : Z * nat * string :=
  match s with
  | EmptyString => (acc, n, s)
  | String c s' =>
      match digit_val c with
      | Some d => digits_go (10 * acc + d) (S n) s'
      | None =>
          if decide (c = "_"%char) then
            match s' with
            | String c' s'' =>
                match digit_val c' with
                | Some d => digits_go (10 * acc + d) (S n) s''
                | None => (acc, n, s)
                end
            | EmptyString => (acc, n, s)
            end
          else (acc, n, s)
      end
  end.

(** [digitpart], continuing the value [acc]. *)
Definition digitpart (acc : Z) (s : string) : option (Z * nat * string) :=
  match s with
  | String c s' =>
      match digit_val c with
      | Some d => Some (digits_go (10 * acc + d) 1 s')
      | None => None
      end
  | EmptyString => None
  end.

(** [number]: mantissa digits, number of fraction digits, rest. *)
Definition number (s : string) : option (Z * nat * string) :=
  match digitpart 0 s with
  | Some (m, _, r) =>
      match r with
      | String c r' =>
          if decide (c = "."%char) then
            match digitpart m r' with
            | Some (m', f, r'') => Some (m', f, r'')
            | None => Some (m, 0%nat, r')
            end
          else Some (m, 0%nat, r)
      | EmptyString => Some (m, 0%nat, r)
      end
  | None =>
      match s with
      | String c r => if decide (c = "."%char) then digitpart 0 r else None
      | EmptyString => None
      end
  end.

(** [[sign]]: whether the sign is a minus, and the text after it. *)
Definition split_sign (t : string) : bool * string :=
  match t with
  | String c u =>
      if decide (c = "+"%char) then (false, u)
      else if decide (c = "-"%char) then (true, u)
      else (false, t)
  | EmptyString => (false, t)
  end.

(** [[exponent]] up to the end of the text. *)
Definition exponent (s : string) : option Z :=
  match s with
  | EmptyString => Some 0
  | String c r =>
      if decide (c = "e"%char ∨ c = "E"%char) then
        let '(neg, r1) := split_sign r in
        match digitpart 0 r1 with
        | Some (e, _, EmptyString) => Some (if neg then - e else e)
        | _ => None
        end
      else None
  end.

Definition scale (m e : Z) : Q :=
  if 0 <=? e then inject_Z (m * 10 ^ e)
  else (inject_Z m / inject_Z (10 ^ (- e)))%Q.

Definition float_of_str (s : string) : option float :=
  let '(neg, u) := split_sign (strip_float s) in
  let w := lower u in
  if decide (w = "inf" ∨ w = "infinity") then
    Some (if neg then NInf else PInf)
  else if decide (w = "nan") then Some NaN
  else
    match number u with
    | Some (m, f, r) =>
        match exponent r with
        | Some e =>
            let q := scale m (e - Z.of_nat f) in
            Some (Fin (if neg then - q else q)%Q)
        | None => None
        end
    | None => None
    end.

(** [x <= y] as a proposition: false when either side is [nan]. *)
Definition le (x y : float) : Prop :=
  match x, y with
  | NaN, _ | _, NaN => False
  | NInf, _ | _, PInf => True
  | Fin a, Fin b => (a <= b)%Q
  | _, _ => False
  end.

End Py.


(** ** Outcomes of a call: a value, or a raised exception *)

Inductive exn : Type :=
| HTTPException (status_code : Z)
| AttributeError
| TypeError
| ValidationError
| OverflowError.

Inductive result (A : Type) : Type :=
| Ok (a : A)
| Raise (e : exn).

Arguments Ok {A} a.
Arguments Raise {A} e.

Global Instance result_ret : MRet result := λ A a, Ok a.

Global Instance result_bind : MBind result := λ A B k r,
  match r with
  | Ok a => k a
  | Raise e => Raise e
  end.

(** ** Values produced by [json.loads] *)

#[warnings="-register-all"]
Inductive json : Type :=
| JNull
| JBool (b : bool)
| JNum (q : Q)
| JStr (s : string)
| JArr (items : list json)
| JObj (members : list (string * json)).

(** [d.get(k)] on the members of an object (one binding per key). *)
Definition jget (k : string) (members : list (string * json)) : option json :=
  snd <$> List.find (λ p, bool_decide (p.1 = k)) members.

(** Truth value of a JSON value, as [x or []] tests it. *)
Definition json_truthy (v : json) : bool :=
  match v with
  | JNull => false
  | JBool b => b
  | JNum q => negb (Qeq_bool q 0)
  | JStr s => Py.truthy s
  | JArr items => bool_decide (items ≠ [])
  | JObj members => bool_decide (members ≠ [])
  end.

(** A value that can be put into a [set]. *)
Definition hashable (v : json) : bool :=
  match v with
  | JArr _ | JObj _ => false
  | _ => true
  end.

Definition as_str (v : json) : option string :=
  match v with
  | JStr s => Some s
  | _ => None
  end.

(** ** schemas.py *)

Module KeywordFull.
Record t : Type := mk {
  keyword : string;
  search_volume : option Z;
  competition : option string;
  cpc_range : option string
}.
End KeywordFull.

Module ShoppingCPCSuggestion.
Record t : Type := mk {
  keyword : string;
  search_volume : option Z;
  competition : option string;
  suggested_cpc : option Py.float
}.
End ShoppingCPCSuggestion.

Module PMaxTheme.
Record t : Type := mk {
  keywords : list string;
  total_volume : Z
}.
End PMaxTheme.

Module BudgetAllocations.
Record t : Type := mk {
  cap : Z;
  bud : Z;
  pmax : Z
}.

(** Validation of the three fields of a request: the class declares
    [cap: int], [bud: int], [pmax: int] with no bound and no validator,
    so every triple of integers is accepted. *)
Definition validate (cap bud pmax : Z) : result t := Ok (mk cap bud pmax).
End BudgetAllocations.

Module SEMInputs.
Record t : Type := mk {
  brand_website : string;
  competitor_website : option string;
  target_locations : string;
  themes : option (list string);
  budget_allocations : BudgetAllocations.t
}.
End SEMInputs.

Module SEMOutput.
Record t : Type := mk {
  brand : string;
  competitor : option string;
  locations : list string;
  budget_allocations : BudgetAllocations.t;
  total_budget : Z;
  total_keywords : Z;
  total_volume : Z;
  avg_cpc : Py.float;
  themes : list string;
  searchAdGroups : gmap string (list KeywordFull.t);
  pmaxThemes : gmap string PMaxTheme.t;
  shoppingCPC : list ShoppingCPCSuggestion.t
}.
End SEMOutput.

(** ** google_ads.py: one entry of the list [get_keywords_from_google]
    returns, with the keys [main.py] reads.  ["keyword"] is [idea.text],
    a string; the three others may be [None]. *)

Module KeywordData.
Record t : Type := mk {
  keyword : string;
  search_volume : option Z;
  competition : option string;
  cpc_range : option string
}.
End KeywordData.

(** ** The collaborators of a request

    [get_keywords_from_google seed_keywords page_url] is the keyword
    ideation call ([None]: it raises).  [model] is the configured
    text-generation model, if any: it maps the keyword list the prompt
    is built from to the response text ([None]: the call raises).
    [json_loads] is [json.loads] ([None]: it raises). *)

Record Env : Type := {
  get_keywords_from_google :
    option (list string) → option string → option (list KeywordData.t);
  model : option (list string → option string);
  json_loads : string → option json
}.

(** ** main.py: utility functions *)

Definition clean_domain (url : string) : string :=
  if negb (Py.truthy url) then ""
  else
    let u := Py.re_sub_scheme url in
    let u := Py.remove_all "www." u in
    Py.lower (hd "" (Py.split_on "." u)).

Definition parse_llm_json (json_loads : string → option json)
    (text : string) : json :=
  if negb (Py.truthy text) then JObj []
  else
    let text := Py.strip text in
    match json_loads text with
    | Some v => v
    | None =>
        let start := Py.find "{" text in
        let end_ := Py.rfind "}" text in
        if negb (start =? -1) && negb (end_ =? -1) && (start <? end_) then
          match json_loads (Py.slice start (end_ + 1) text) with
          | Some v => v
          | None => JObj []
          end
        else JObj []
    end.

(** ** main.py: [generate_pmax_themes_llm] *)

Definition fallback (keywords locations : list string)
    : gmap string PMaxTheme.t :=
  {[ "product" := PMaxTheme.mk keywords 0;
     "usecase" :=
       PMaxTheme.mk
         (List.filter (λ kw, (3 <=? length (Py.split kw))%nat) keywords) 0;
     "demographic" := PMaxTheme.mk locations 0;
     "seasonal" :=
       PMaxTheme.mk ((λ loc, loc +:+ " seasonal trends") <$> locations) 0 ]}.

Inductive bucket : Type := Product | Usecase | Demographic | Seasonal.

Definition product_tokens : list string :=
  ["product"; "protein"; "whey"; "vegan"; "organic"].
Definition usecase_tokens : list string := ["use"; "recovery"; "weight"].
Definition demographic_tokens : list string :=
  ["city"; "india"; "delhi"; "mumbai"; "location"].
Definition seasonal_tokens : list string :=
  ["season"; "summer"; "winter"; "holiday"; "fest"; "diwali"; "xmas"].

(** [any(w in name for w in ws)] *)
Definition any_in (ws : list string) (name : string) : bool :=
  existsb (λ w, Py.contains w name) ws.

(** The [if]/[elif] chain of the loop: the list a theme extends. *)
Definition bucket_of_name (name : string) : bucket :=
  if any_in product_tokens name then Product
  else if any_in usecase_tokens name then Usecase
  else if any_in demographic_tokens name then Demographic
  else if any_in seasonal_tokens name then Seasonal
  else Product.

(** [t.get("name", "").lower() if isinstance(t, dict) else ""]: a name
    that is not a string has no [lower]. *)
Definition theme_name (t : json) : result string :=
  match t with
  | JObj members =>
      match jget "name" members with
      | None => Ok ""
      | Some (JStr s) => Ok (Py.lower s)
      | Some _ => Raise AttributeError
      end
  | _ => Ok ""
  end.

(** [t.get("keywords", [])], replaced by [[]] when it is not a list. *)
Definition theme_kws (t : json) : list json :=
  match t with
  | JObj members =>
      match jget "keywords" members with
      | Some (JArr kws) => kws
      | _ => []
      end
  | _ => []
  end.

Record buckets : Type := {
  product_keywords : list json;
  usecase_long : list json;
  demographic_keywords : list json;
  seasonal_keywords : list json
}.

Definition no_buckets : buckets :=
  {| product_keywords := []; usecase_long := [];
     demographic_keywords := []; seasonal_keywords := [] |}.

Definition extend (b : bucket) (kws : list json) (bs : buckets) : buckets :=
  match b with
  | Product =>
      {| product_keywords := product_keywords bs ++ kws;
         usecase_long := usecase_long bs;
         demographic_keywords := demographic_keywords bs;
         seasonal_keywords := seasonal_keywords bs |}
  | Usecase =>
      {| product_keywords := product_keywords bs;
         usecase_long := usecase_long bs ++ kws;
         demographic_keywords := demographic_keywords bs;
         seasonal_keywords := seasonal_keywords bs |}
  | Demographic =>
      {| product_keywords := product_keywords bs;
         usecase_long := usecase_long bs;
         demographic_keywords := demographic_keywords bs ++ kws;
         seasonal_keywords := seasonal_keywords bs |}
  | Seasonal =>
      {| product_keywords := product_keywords bs;
         usecase_long := usecase_long bs;
         demographic_keywords := demographic_keywords bs;
         seasonal_keywords := seasonal_keywords bs ++ kws |}
  end.

(** The loop [for t in themes_list]. *)
Fixpoint reclassify (bs : buckets) (themes_list : list json)
    : result buckets :=
  match themes_list with
  | [] => Ok bs
  | t :: rest =>
      name ← theme_name t;
      reclassify (extend (bucket_of_name name) (theme_kws t) bs) rest
  end.

(** The local function [uniq]: [seen] is the set of the elements met. *)
Fixpoint uniq_go (seen : gset string) (seq : list string) : list string :=
  match seq with
  | [] => []
  | x :: seq' =>
      if decide (x ∈ seen) then uniq_go seen seq'
      else x :: uniq_go ({[x]} ∪ seen) seq'
  end.

Definition uniq (seq : list string) : list string := uniq_go ∅ seq.

(** [uniq(b)] on a list of JSON values, as the [keywords: List[str]]
    field of [PMaxTheme] then receives it: a list or object in [b]
    cannot be hashed, and the field takes strings only (pydantic 2). *)
Definition uniq_bucket (b : list json) : result (list string) :=
  if forallb hashable b then
    match mapM as_str b with
    | Some kws => Ok (uniq kws)
    | None => Raise ValidationError
    end
  else Raise TypeError.

(** [x or y] on lists *)
Definition or_list {A} (x y : list A) : list A :=
  match x with
  | [] => y
  | _ => x
  end.

(** [parsed.get("themes") or []]: only a dict has [get]. *)
Definition themes_list_of (parsed : json) : result json :=
  match parsed with
  | JObj members =>
      match jget "themes" members with
      | Some v => Ok (if json_truthy v then v else JArr [])
      | None => Ok (JArr [])
      end
  | _ => Raise AttributeError
  end.

(** From [parsed = parse_llm_json(resp_text)] to the returned dict. *)
Definition themes_of_parsed (parsed : json) (keywords locations : list string)
    : result (gmap string PMaxTheme.t) :=
  themes_list ← themes_list_of parsed;
  bs ← match themes_list with
       | JArr ts => reclassify no_buckets ts
       | _ => Ok no_buckets
       end;
  product ← uniq_bucket (product_keywords bs);
  usecase ← uniq_bucket (usecase_long bs);
  demographic ← uniq_bucket (demographic_keywords bs);
  seasonal ← uniq_bucket (seasonal_keywords bs);
  Ok ({[ "product" := PMaxTheme.mk (or_list product (uniq keywords)) 0;
         "usecase" := PMaxTheme.mk usecase 0;
         "demographic" := PMaxTheme.mk (or_list demographic locations) 0;
         "seasonal" := PMaxTheme.mk seasonal 0 ]}).

Definition generate_pmax_themes_llm (env : Env)
    (keywords locations : list string) : result (gmap string PMaxTheme.t) :=
  match model env with
  | None => Ok (fallback keywords locations)
  | Some generate_content =>
      match generate_content keywords with
      | None => Ok (fallback keywords locations)
      | Some resp_text =>
          themes_of_parsed (parse_llm_json (json_loads env) resp_text)
            keywords locations
      end
  end.

(** ** main.py: [generate_sem_plan] *)

(** Step 2: [kw.get("search_volume") and kw["search_volume"] >= 500] *)
Definition volume_ok (kw : KeywordData.t) : bool :=
  match KeywordData.search_volume kw with
  | Some v => Py.truthy_int v && (500 <=? v)
  | None => false
  end.

Definition to_KeywordFull (kw : KeywordData.t) : KeywordFull.t :=
  KeywordFull.mk (KeywordData.keyword kw) (KeywordData.search_volume kw)
    (KeywordData.competition kw) (KeywordData.cpc_range kw).

Definition keyword_objects (keywords_data : list KeywordData.t)
    : list KeywordFull.t :=
  to_KeywordFull <$> List.filter volume_ok keywords_data.

(** [sum((k.search_volume or 0) for k in keyword_objects)] *)
Definition sum_volume (kws : list KeywordFull.t) : Z :=
  foldl (λ acc k, acc + default 0 (KeywordFull.search_volume k)) 0 kws.

(** The body of the [try]: two parts around one hyphen, each a float
    once stripped and freed of dollar signs; [None] when it raises. *)
Definition parse_cpc_range (r : string) : option Py.float :=
  match
    mapM (λ p, Py.float_of_str (Py.remove_all "$" (Py.strip p)))
      (Py.split_on "-" r)
  with
  | Some [low; high] => Some (Py.div_pos (Py.add low high) 2)
  | _ => None
  end.

(** The midpoint a keyword contributes, if any: [if k.cpc_range: try ...] *)
Definition cpc_midpoint (k : KeywordFull.t) : option Py.float :=
  match KeywordFull.cpc_range k with
  | Some r => if Py.truthy r then parse_cpc_range r else None
  | None => None
  end.

Definition cpc_midpoints (kws : list KeywordFull.t) : list Py.float :=
  omap cpc_midpoint kws.

Definition avg_cpc_of (kws : list KeywordFull.t) : Py.float :=
  let ms := cpc_midpoints kws in
  match ms with
  | [] => Py.of_int 0
  | _ =>
      Py.round2
        (Py.div_pos (Py.sum ms) (inject_Z (Z.max 1 (Z.of_nat (length ms)))))
  end.

(** The five ad groups *)
Inductive ad_group : Type :=
| Brand | Category | Competitor | Informational | Location.

Definition group_name (g : ad_group) : string :=
  match g with
  | Brand => "Brand & Product Terms"
  | Category => "Category Terms"
  | Competitor => "Competitor Terms"
  | Informational => "Informational Queries"
  | Location => "Location-based Queries"
  end.

(** The [if]/[elif] chain of the classification loop: the group whose
    list receives [kw]. *)
Definition classify (brand_key competitor_key target_locations : string)
    (kw : KeywordFull.t) : ad_group :=
  let text := Py.lower (KeywordFull.keyword kw) in
  if Py.truthy brand_key && Py.contains brand_key text then Brand
  else if Py.truthy competitor_key && Py.contains competitor_key text
  then Competitor
  else if Py.truthy target_locations
          && existsb (λ loc, Py.contains (Py.lower (Py.strip loc)) text)
               (Py.split_on "," target_locations)
  then Location
  else if (3 <=? length (Py.split text))%nat then Informational
  else Category.

Definition empty_groups : gmap string (list KeywordFull.t) :=
  {[ "Brand & Product Terms" := [];
     "Category Terms" := [];
     "Competitor Terms" := [];
     "Informational Queries" := [];
     "Location-based Queries" := [] ]}.

(** [search_groups[name].append(kw)] for each keyword in turn. *)
Definition search_groups (brand_key competitor_key target_locations : string)
    (kws : list KeywordFull.t) : gmap string (list KeywordFull.t) :=
  foldl
    (λ groups kw,
       alter (λ l, l ++ [kw])
         (group_name (classify brand_key competitor_key target_locations kw))
         groups)
    empty_groups kws.

Definition locations_list (target_locations : string) : list string :=
  if Py.truthy target_locations
  then Py.strip <$> Py.split_on "," target_locations
  else [].

Definition conversion_rate : Q := 2 # 100.

(** Whether the operands of the target CPC convert to floats:
    [total_budget * conversion_rate] and the division by
    [max(1, total_volume)] are evaluated when [total_volume > 0], and
    each converts its integer operand. *)
Definition target_cpc_converts (total_budget total_volume : Z) : bool :=
  negb (0 <? total_volume)
  || Py.int_fits_float total_budget
     && Py.int_fits_float (Z.max 1 total_volume).

(** The target CPC, when its operands convert. *)
Definition target_cpc_of (total_budget total_volume : Z) : Py.float :=
  if 0 <? total_volume then
    Py.round2
      (Py.div_pos (Py.mul_const total_budget conversion_rate)
         (inject_Z (Z.max 1 total_volume)))
  else Py.of_int 0.

(** The suggested bid of one keyword. *)
Definition suggested_of (target_cpc : Py.float) (kw : KeywordFull.t)
    : Py.float :=
  match cpc_midpoint kw with
  | Some midpoint => Py.round2 (Py.min midpoint target_cpc)
  | None => target_cpc
  end.

Definition suggestion (target_cpc : Py.float) (kw : KeywordFull.t)
    : ShoppingCPCSuggestion.t :=
  ShoppingCPCSuggestion.mk (KeywordFull.keyword kw)
    (KeywordFull.search_volume kw) (KeywordFull.competition kw)
    (Some (suggested_of target_cpc kw)).

Definition total_budget_of (b : BudgetAllocations.t) : Z :=
  BudgetAllocations.cap b + BudgetAllocations.bud b + BudgetAllocations.pmax b.

(** [inputs.brand_website or inputs.competitor_website] *)
Definition page_url_of (inputs : SEMInputs.t) : option string :=
  if Py.truthy (SEMInputs.brand_website inputs)
  then Some (SEMInputs.brand_website inputs)
  else SEMInputs.competitor_website inputs.

Definition generate_sem_plan (env : Env) (inputs : SEMInputs.t)
    : result SEMOutput.t :=
  match
    get_keywords_from_google env (SEMInputs.themes inputs) (page_url_of inputs)
  with
  | None => Raise (HTTPException 500)
  | Some keywords_data =>
      let kws := keyword_objects keywords_data in
      let total_keywords := Z.of_nat (length kws) in
      let total_volume := sum_volume kws in
      let avg_cpc := avg_cpc_of kws in
      let brand_key := clean_domain (SEMInputs.brand_website inputs) in
      let competitor_key :=
        clean_domain (default "" (SEMInputs.competitor_website inputs)) in
      let groups :=
        search_groups brand_key competitor_key
          (SEMInputs.target_locations inputs) kws in
      let locs := locations_list (SEMInputs.target_locations inputs) in
      pmax_map ← generate_pmax_themes_llm env (KeywordFull.keyword <$> kws) locs;
      let total_budget := total_budget_of (SEMInputs.budget_allocations inputs) in
      _ ← (if target_cpc_converts total_budget total_volume then Ok ()
           else Raise OverflowError);
      let target_cpc := target_cpc_of total_budget total_volume in
      let shopping_cpc := suggestion target_cpc <$> kws in
      (* [SEMOutput.themes] is a [List[str]]: [None] does not validate *)
      themes ← match SEMInputs.themes inputs with
               | Some l => Ok l
               | None => Raise ValidationError
               end;
      Ok (SEMOutput.mk (SEMInputs.brand_website inputs)
            (SEMInputs.competitor_website inputs) locs
            (SEMInputs.budget_allocations inputs) total_budget total_keywords
            total_volume avg_cpc themes groups pmax_map shopping_cpc)
  end.

(** ** Vocabulary of the statements *)

Global Instance ad_group_eq_dec : EqDecision ad_group.
Proof. solve_decision. Defined.

Global Instance bucket_eq_dec : EqDecision bucket.
Proof. solve_decision. Defined.

(** [key and key in text]: a non-empty token contained in the
    lower-cased keyword text. *)
Definition key_matches (key : string) (kw : KeywordFull.t) : bool :=
  Py.truthy key && Py.contains key (Py.lower (KeywordFull.keyword kw)).

(** Some entry of the location list, lower-cased, is contained in the
    lower-cased keyword text. *)
Definition location_matches (target_locations : string) (kw : KeywordFull.t)
    : bool :=
  existsb
    (λ loc, Py.contains (Py.lower loc) (Py.lower (KeywordFull.keyword kw)))
    (locations_list target_locations).

(** The keywords of [kws] the classifier sends to group [g]. *)
Definition members_of (cls : KeywordFull.t → ad_group) (g : ad_group)
    (kws : list KeywordFull.t) : list KeywordFull.t :=
  List.filter (λ kw, bool_decide (cls kw = g)) kws.

(** Root-domain extraction as the specification words it: strip a
    leading protocol scheme, strip a leading [www.] marker, take the
    text before the first dot, lower-case it. *)
Fixpoint drop_chars (n : nat) (s : string) : string :=
  match n, s with
  | S k, String _ s' => drop_chars k s'
  | _, _ => s
  end.

Definition strip_leading (p s : string) : string :=
  if String.prefix p s then drop_chars (String.length p) s else s.

Definition strip_leading_scheme (url : string) : string :=
  if String.prefix "https://" url then drop_chars 8 url
  else if String.prefix "http://" url then drop_chars 7 url
  else url.

Fixpoint before_dot (s : string) : string :=
  match s with
  | EmptyString => EmptyString
  | String c s' => if decide (c = "."%char) then "" else String c (before_dot s')
  end.

Definition clean_domain_spec (url : string) : string :=
  Py.lower (before_dot (strip_leading "www." (strip_leading_scheme url))).

(** No scheme and no [www.] marker occurs in [s]. *)
Definition marker_free (s : string) : Prop :=
  Py.contains "http://" s = false
  ∧ Py.contains "https://" s = false
  ∧ Py.contains "www." s = false.

(** A float that is a number other than a negative one, or [nan]. *)
Definition not_negative (x : Py.float) : Prop :=
  match x with
  | Py.Fin a => (0 <= a)%Q
  | Py.PInf | Py.NaN => True
  | Py.NInf => False
  end.

(** The characters of a string. *)
Definition chars (s : string) : list ascii := String.list_ascii_of_string s.

(** The sum of a list of rationals, and its arithmetic mean. *)
Definition Qsum (qs : list Q) : Q := foldr Qplus 0%Q qs.

Definition Qmean (qs : list Q) : Q :=
  (Qsum qs / inject_Z (Z.of_nat (length qs)))%Q.

(** ** The scenario of the specification, as data to run the model on *)

Definition sample_data : list KeywordData.t :=
  [ KeywordData.mk "whey protein" (Some 1000) (Some "LOW")
      (Some "$1.00 - $2.00");
    KeywordData.mk "gym" (Some 100) (Some "LOW") None ].

(** No text-generation model is configured. *)
Definition sample_env : Env :=
  {| get_keywords_from_google := λ _ _, Some sample_data;
     model := None;
     json_loads := λ _, None |}.

Definition sample_inputs (cap bud pmax : Z) : SEMInputs.t :=
  SEMInputs.mk "https://www.Acme.com/page" None "Delhi, Mumbai" (Some [])
    (BudgetAllocations.mk cap bud pmax).

(** ** Vocabulary of the theme statements *)

(** The themes the loop of [generate_pmax_themes_llm] runs over: the
    value under ["themes"] when it is a list, no theme otherwise. *)
Definition source_themes (members : list (string * json)) : list json :=
  match jget "themes" members with
  | Some (JArr ts) => ts
  | _ => []
  end.

(** The bucket a theme feeds, by its name. *)
Definition theme_bucket (t : json) : bucket :=
  match theme_name t with
  | Ok name => bucket_of_name name
  | Raise _ => Product
  end.

(** A theme whose name, when it has one, is a string, and whose keyword
    list holds strings only. *)
Definition well_typed_theme (t : json) : Prop :=
  (∃ name, theme_name t = Ok name)
  ∧ Forall (λ v, is_Some (as_str v)) (theme_kws t).

(** The values and the keywords the themes of bucket [b] bring, in the
    order of the themes. *)
Definition bucket_values (b : bucket) (ts : list json) : list json :=
  concat (theme_kws <$> List.filter (λ t, bool_decide (theme_bucket t = b)) ts).

Definition bucket_keywords (b : bucket) (ts : list json) : list string :=
  omap as_str (bucket_values b ts).

(** A [json.loads] that knows the texts of a table and raises on every
    other text. *)
Definition stub_json_loads (table : list (string * json)) (text : string)
    : option json :=
  snd <$> List.find (λ p, bool_decide (p.1 = text)) table.

(** A collaborator that answers [resp_text], read with [table]. *)
Definition llm_env (resp_text : string) (table : list (string * json)) : Env :=
  {| get_keywords_from_google := λ _ _, Some sample_data;
     model := Some (λ _, Some resp_text);
     json_loads := stub_json_loads table |}.

(** A response with one seasonal theme. *)
Definition seasonal_only : json :=
  JObj [("themes",
         JArr [JObj [("name", JStr "Summer Sale");
                     ("keywords", JArr [JStr "summer whey"; JStr "summer whey"])]])].

(** A text without hyphen, dollar sign or blank: the shape of a number
    between the markers of a range ["$low - $high"]. *)
Definition plain (s : string) : Prop :=
  ∀ c, c ∈ chars s →
    c ≠ "-"%char ∧ c ≠ "$"%char ∧ Py.is_space c = false.

(** ** main.py: the local function [suggest_match_types] of
    [generate_sem_plan] (defined there, never called) *)

Definition suggest_match_types (group_name : string) : list string :=
  let name := Py.lower group_name in
  if Py.contains "brand" name || Py.contains "competitor" name
  then ["Exact"; "Phrase"]
  else if Py.contains "category" name then ["Phrase"; "Exact"]
  else if Py.contains "informational" name then ["Phrase"; "Broad"]
  else if Py.contains "location" name then ["Exact"; "Phrase"]
  else ["Exact"].

(** ** Vocabulary of the plan statements *)

Definition all_groups : list ad_group :=
  [Brand; Category; Competitor; Informational; Location].

(** The list a plan holds under the name of group [g]. *)
Definition group_list (groups : gmap string (list KeywordFull.t))
    (g : ad_group) : list KeywordFull.t :=
  default [] (groups !! group_name g).

(** The sum of a list of integers. *)
Definition Zsum (l : list Z) : Z := foldr Z.add 0 l.

(** The number of occurrences of a character. *)
Definition count_char (c : ascii) (s : string) : nat :=
  length (List.filter (λ d, bool_decide (d = c)) (chars s)).

(** ** google_ads.py: the loop of [get_keywords_from_google] over the
    ideas of the response

    One idea of the response with its metrics.  [None] stands for an
    attribute that is absent or [None]; [competition] is the name of
    the enum value when that value is truthy. *)

Module KeywordIdea.
Record t : Type := mk {
  text : string;
  avg_monthly_searches : option Z;
  competition : option string;
  low_top_of_page_bid_micros : option Z;
  high_top_of_page_bid_micros : option Z
}.
End KeywordIdea.

(** The character of a decimal digit. *)
Definition digit_char (k : Z) : ascii := ascii_of_nat (48 + Z.to_nat k).

(** [f"{x:.2f}"]: the magnitude rounded to hundredths, printed with
    its integer part, a dot and two digits.  A float being an exact
    rational here, a value halfway between two hundredths goes to the
    even one; a Python double is almost never exactly halfway, and
    goes to the nearer one. *)
Definition format_2f (x : Py.float) : string :=
  match x with
  | Py.Fin q =>
      let c := Py.round_half_even (Qabs q * 100) in
      (if Qlt_le_dec q 0 then "-" else "")
      +:+ NilEmpty.string_of_uint (Nat.to_uint (Z.to_nat (c / 100)))
      +:+ String "." (String (digit_char (c / 10 mod 10))
                        (String (digit_char (c mod 10)) ""))
  | Py.PInf => "inf"
  | Py.NInf => "-inf"
  | Py.NaN => "nan"
  end.

(** Truth value of a float *)
Definition float_truthy (x : Py.float) : bool :=
  match x with
  | Py.Fin q => negb (Qeq_bool q 0)
  | _ => true
  end.

(** [(micros / 1e6) if getattr(metrics, name, None) else None] *)
Definition bid_of_micros (micros : option Z) : option Py.float :=
  match micros with
  | Some m =>
      if Py.truthy_int m then Some (Py.div_pos (Py.of_int m) 1000000) else None
  | None => None
  end.

(** [f"${low_bid:.2f} - ${high_bid:.2f}"] when both bids are truthy *)
Definition cpc_range_of (low_bid high_bid : option Py.float) : option string :=
  match low_bid, high_bid with
  | Some low, Some high =>
      if float_truthy low && float_truthy high
      then Some ("$" +:+ format_2f low +:+ " - $" +:+ format_2f high)
      else None
  | _, _ => None
  end.

(** The dict appended for one idea, with the keys [main.py] reads. *)
Definition keyword_entry (idea : KeywordIdea.t) : KeywordData.t :=
  let low_bid := bid_of_micros (KeywordIdea.low_top_of_page_bid_micros idea) in
  let high_bid :=
    bid_of_micros (KeywordIdea.high_top_of_page_bid_micros idea) in
  KeywordData.mk (KeywordIdea.text idea)
    (KeywordIdea.avg_monthly_searches idea) (KeywordIdea.competition idea)
    (cpc_range_of low_bid high_bid).


(** ** Records as the plan receives them *)



(** * Properties *)

Example lower_ex : Py.lower "Whey Protein" = "whey protein".
Proof. reflexivity. Qed.
Example strip_ex : Py.strip "  new delhi " = "new delhi".
Proof. reflexivity. Qed.
Example split_ex : Py.split " best  whey protein " = ["best"; "whey"; "protein"].
Proof. reflexivity. Qed.
Example split_on_ex : Py.split_on "," "a,,b," = ["a"; ""; "b"; ""].
Proof. reflexivity. Qed.
Example split_on_ex2 : Py.split_on "," "" = [""].
Proof. reflexivity. Qed.
Example contains_ex : Py.contains "cme" "acme shoes" = true.
Proof. reflexivity. Qed.
Example remove_ex : Py.remove_all "www." "awww.bwww.c" = "abc".
Proof. reflexivity. Qed.
Example resub_ex : Py.re_sub_scheme "https://x.http://y" = "x.y".
Proof. reflexivity. Qed.
Example find_ex : (Py.find "{" "ab{c{", Py.rfind "}" "a}b}c", Py.find "{" "abc") = (2, 3, -1).
Proof. reflexivity. Qed.
Example slice_ex : Py.slice 2 5 "ab{c}d" = "{c}".
Proof. reflexivity. Qed.
Example float_ex1 : Py.float_of_str " 1.50" = Some (Py.Fin (150 # 100)).
Proof. vm_compute. reflexivity. Qed.
Example float_ex2 : Py.float_of_str "1_0.5e+1" = Some (Py.Fin 105).
Proof. vm_compute. reflexivity. Qed.
Example float_blanks :
  (Py.float_of_str (String (ascii_of_nat 160) "1.5 "),
   Py.float_of_str (String (ascii_of_nat 28) "1.5"),
   Py.strip (String (ascii_of_nat 28) "1.5"))
  = (Some (Py.Fin (15 # 10)), None, "1.5").
Proof. reflexivity. Qed.
Example float_ex3 : (Py.float_of_str "1__0", Py.float_of_str ".", Py.float_of_str "5.", Py.float_of_str ".5", Py.float_of_str "NaN", Py.float_of_str "+Infinity", Py.float_of_str "1e", Py.float_of_str "") = (None, None, Some (Py.Fin 5), Some (Py.Fin (5 # 10)), Some Py.NaN, Some Py.PInf, None, None).
Proof. vm_compute. reflexivity. Qed.

(** ** Lists *)

Lemma elem_of_bool_filter {A} (f : A → bool) (l : list A) (x : A) :
  x ∈ List.filter f l ↔ x ∈ l ∧ f x = true.
Proof. rewrite !list_elem_of_In. apply filter_In. Qed.

Lemma bool_filter_sublist {A} (f : A → bool) (l : list A) :
  sublist (List.filter f l) l.
Proof.
  induction l as [|a l IH]; simpl; [constructor|].
  destruct (f a); by constructor.
Qed.

Lemma bool_filter_nil {A} (f : A → bool) (l : list A) :
  (∀ x, x ∈ l → f x = false) → List.filter f l = [].
Proof.
  induction l as [|a l IH]; intros H; simpl; [done|].
  rewrite (H a) by constructor.
  apply IH. intros x Hx. apply H. by constructor.
Qed.

(** ** Step 2: the volume filter *)

Lemma volume_ok_spec (kw : KeywordData.t) :
  volume_ok kw = true ↔ ∃ v, KeywordData.search_volume kw = Some v ∧ 500 ≤ v.
Proof.
  unfold volume_ok, Py.truthy_int.
  destruct (KeywordData.search_volume kw) as [v|]; split.
  - intros [_ H]%andb_true_iff. exists v. split; [done|lia].
  - intros (w & [= <-] & Hw). apply andb_true_iff. split; [|lia].
    apply bool_decide_eq_true. lia.
  - done.
  - by intros (w & ? & _).
Qed.

(** C1.  The filtering step keeps exactly the records whose
    [search_volume] is present and at least 500: the keyword objects
    are the images of the kept records, a record is kept if and only
    if it is an input record with a volume of at least 500, every
    keyword object has a volume of at least 500, a record with an
    absent or smaller volume is not kept, and the kept records are a
    subsequence of the input (its order is preserved). *)
Theorem filter_keeps_volume_500 (keywords_data : list KeywordData.t) :
  let kept := List.filter volume_ok keywords_data in
  keyword_objects keywords_data = to_KeywordFull <$> kept
  ∧ (∀ kw, kw ∈ kept ↔
       kw ∈ keywords_data
       ∧ ∃ v, KeywordData.search_volume kw = Some v ∧ 500 ≤ v)
  ∧ (∀ k, k ∈ keyword_objects keywords_data →
       ∃ v, KeywordFull.search_volume k = Some v ∧ 500 ≤ v)
  ∧ (∀ kw, KeywordData.search_volume kw = None
           ∨ (∃ v, KeywordData.search_volume kw = Some v ∧ v < 500) →
       (kw ∉ kept) ∧ (to_KeywordFull kw ∉ keyword_objects keywords_data))
  ∧ sublist kept keywords_data.
Proof.
  intros kept. split; [done|].
  assert (Hkept : ∀ kw, kw ∈ kept ↔
            kw ∈ keywords_data
            ∧ ∃ v, KeywordData.search_volume kw = Some v ∧ 500 ≤ v).
  { intros kw. unfold kept. rewrite elem_of_bool_filter.
    by rewrite volume_ok_spec. }
  assert (Hobj : ∀ k, k ∈ keyword_objects keywords_data →
            ∃ v, KeywordFull.search_volume k = Some v ∧ 500 ≤ v).
  { intros k (kw & -> & Hkw)%list_elem_of_fmap.
    apply Hkept in Hkw as [_ Hv]. exact Hv. }
  repeat split; try done.
  - by apply Hkept.
  - by apply Hkept.
  - apply Hkept.
  - intros [_ (v & Hv & Hle)]%Hkept.
    destruct H as [Hn|(w & Hw & Hlt)]; simplify_eq. lia.
  - intros (v & Hv & Hle)%Hobj. simpl in Hv.
    destruct H as [Hn|(w & Hw & Hlt)]; simplify_eq. lia.
  - apply bool_filter_sublist.
Qed.

(** ** The ad-group classifier *)

Lemma contains_empty (text : string) : Py.contains "" text = true.
Proof. by destruct text. Qed.

Lemma group_name_inj (g g' : ad_group) : group_name g = group_name g' → g = g'.
Proof. by destruct g, g'. Qed.

Lemma existsb_fmap {A B} (f : A → B) (p : B → bool) (l : list A) :
  existsb p (f <$> l) = existsb (λ x, p (f x)) l.
Proof. induction l as [|a l IH]; csimpl; [done|]. by rewrite IH. Qed.

Lemma location_matches_unfold (target_locations : string) (kw : KeywordFull.t) :
  location_matches target_locations kw =
  Py.truthy target_locations
  && existsb
       (λ loc, Py.contains (Py.lower (Py.strip loc))
                 (Py.lower (KeywordFull.keyword kw)))
       (Py.split_on "," target_locations).
Proof.
  unfold location_matches, locations_list.
  destruct (Py.truthy target_locations); simpl; [|done].
  apply existsb_fmap.
Qed.

Lemma classify_chain (brand_key competitor_key target_locations : string)
    (kw : KeywordFull.t) :
  classify brand_key competitor_key target_locations kw =
  if key_matches brand_key kw then Brand
  else if key_matches competitor_key kw then Competitor
  else if location_matches target_locations kw then Location
  else if bool_decide
            (3 ≤ length (Py.split (Py.lower (KeywordFull.keyword kw))))%nat
       then Informational
       else Category.
Proof.
  unfold classify. rewrite location_matches_unfold. unfold key_matches.
  repeat (case_match; try done).
  - apply Nat.leb_le in H2. by case_bool_decide.
  - apply Nat.leb_gt in H2. case_bool_decide; [lia|done].
Qed.

Lemma search_groups_foldl (cls : KeywordFull.t → ad_group) (g : ad_group)
    (kws : list KeywordFull.t) (groups : gmap string (list KeywordFull.t)) :
  foldl (λ groups kw, alter (λ l, l ++ [kw]) (group_name (cls kw)) groups)
    groups kws !! group_name g
  = (λ l, l ++ members_of cls g kws) <$> groups !! group_name g.
Proof.
  revert groups. induction kws as [|a kws IH]; intros groups; simpl.
  - destruct (groups !! group_name g); simpl; [|done]. by rewrite app_nil_r.
  - rewrite IH. unfold members_of. simpl. case_bool_decide as Hc.
    + rewrite Hc, lookup_alter_eq.
      destruct (groups !! group_name g); simpl; [|done].
      by rewrite <- app_assoc.
    + rewrite lookup_alter_ne; [done|].
      intros Heq. by apply Hc, group_name_inj.
Qed.

Lemma search_groups_lookup (brand_key competitor_key target_locations : string)
    (kws : list KeywordFull.t) (g : ad_group) :
  search_groups brand_key competitor_key target_locations kws !! group_name g
  = Some (members_of (classify brand_key competitor_key target_locations) g kws).
Proof.
  unfold search_groups. rewrite search_groups_foldl.
  by destruct g.
Qed.

Lemma search_groups_dom (brand_key competitor_key target_locations : string)
    (kws : list KeywordFull.t) :
  dom (search_groups brand_key competitor_key target_locations kws)
  = dom empty_groups.
Proof.
  unfold search_groups. generalize empty_groups.
  induction kws as [|a kws IH]; intros groups; simpl; [done|].
  by rewrite IH, dom_alter_L.
Qed.

Lemma members_of_partition (cls : KeywordFull.t → ad_group)
    (kws : list KeywordFull.t) :
  kws ≡ₚ members_of cls Brand kws ++ members_of cls Category kws
         ++ members_of cls Competitor kws ++ members_of cls Informational kws
         ++ members_of cls Location kws.
Proof.
  unfold members_of.
  induction kws as [|a kws IH]; simpl; [done|].
  destruct (cls a); simpl; rewrite <- ?Permutation_middle; by constructor.
Qed.

(** C2.  The classifier is the first-match-wins rule chain (non-empty
    brand token contained in the lower-cased text, else non-empty
    competitor token, else some location entry, else three or more
    blank-separated tokens, else category); the result has exactly the
    five group names as keys, whatever the keywords; the list under a
    name holds the keywords classified to that group, in input order;
    every keyword lies in the list of exactly one group; and the five
    lists together are a rearrangement of the keyword list. *)
Theorem ad_groups_partition (brand_key competitor_key target_locations : string)
    (kws : list KeywordFull.t) :
  let cls := classify brand_key competitor_key target_locations in
  let groups := search_groups brand_key competitor_key target_locations kws in
  (∀ kw, cls kw =
     if key_matches brand_key kw then Brand
     else if key_matches competitor_key kw then Competitor
     else if location_matches target_locations kw then Location
     else if bool_decide
               (3 ≤ length (Py.split (Py.lower (KeywordFull.keyword kw))))%nat
          then Informational
          else Category)
  ∧ dom groups
    = {[ "Brand & Product Terms"; "Category Terms"; "Competitor Terms";
         "Informational Queries"; "Location-based Queries" ]}
  ∧ (∀ g, groups !! group_name g = Some (members_of cls g kws))
  ∧ (∀ kw g, kw ∈ members_of cls g kws ↔ kw ∈ kws ∧ cls kw = g)
  ∧ (∀ kw, kw ∈ kws →
       ∃ g, (∃ l, groups !! group_name g = Some l ∧ kw ∈ l)
            ∧ ∀ g' l', groups !! group_name g' = Some l' → kw ∈ l' → g' = g)
  ∧ kws ≡ₚ concat ((λ g, default [] (groups !! group_name g))
                     <$> [Brand; Category; Competitor; Informational; Location]).
Proof.
  intros cls groups.
  assert (Hmem : ∀ kw g, kw ∈ members_of cls g kws ↔ kw ∈ kws ∧ cls kw = g).
  { intros kw g. unfold members_of. rewrite elem_of_bool_filter.
    by rewrite bool_decide_eq_true. }
  assert (Hlook : ∀ g, groups !! group_name g = Some (members_of cls g kws)).
  { intros g. apply search_groups_lookup. }
  split; [intros kw; apply classify_chain|].
  split.
  { unfold groups. rewrite search_groups_dom. unfold empty_groups.
    rewrite !dom_insert_L, dom_singleton_L. set_solver. }
  split; [done|]. split; [done|]. split.
  - intros kw Hkw. exists (cls kw). split.
    + eexists. split; [apply Hlook|]. by apply Hmem.
    + intros g' l' Hl' Hin. rewrite Hlook in Hl'. simplify_eq.
      by apply Hmem in Hin as [_ ->].
  - change (kws ≡ₚ default [] (groups !! group_name Brand)
                     ++ default [] (groups !! group_name Category)
                     ++ default [] (groups !! group_name Competitor)
                     ++ default [] (groups !! group_name Informational)
                     ++ default [] (groups !! group_name Location) ++ []).
    rewrite !Hlook. simpl. rewrite app_nil_r.
    apply members_of_partition.
Qed.

(** C10.  When the location list has an entry that is empty once
    stripped, the empty token is contained in every keyword text, so a
    keyword that matches neither the brand nor the competitor token is
    a location query: the location group holds, in input order,
    exactly the keywords that match neither token, the brand and
    competitor groups hold the others, no keyword is informational or a
    category term, and those two groups are empty. *)
Theorem empty_location_entry_matches_all
    (brand_key competitor_key target_locations : string)
    (kws : list KeywordFull.t) :
  "" ∈ locations_list target_locations →
  let cls := classify brand_key competitor_key target_locations in
  let groups := search_groups brand_key competitor_key target_locations kws in
  (∀ text, Py.contains "" text = true)
  ∧ (∀ kw, location_matches target_locations kw = true)
  ∧ (∀ kw, key_matches brand_key kw = false →
           key_matches competitor_key kw = false → cls kw = Location)
  ∧ (∀ kw, cls kw ≠ Informational ∧ cls kw ≠ Category)
  ∧ groups !! "Location-based Queries"
    = Some (List.filter
              (λ kw, negb (key_matches brand_key kw)
                     && negb (key_matches competitor_key kw)) kws)
  ∧ (∀ kw, kw ∈ kws → key_matches brand_key kw = false →
           key_matches competitor_key kw = false →
           ∃ l, groups !! "Location-based Queries" = Some l ∧ kw ∈ l)
  ∧ groups !! "Brand & Product Terms"
    = Some (List.filter (key_matches brand_key) kws)
  ∧ groups !! "Competitor Terms"
    = Some (List.filter
              (λ kw, negb (key_matches brand_key kw)
                     && key_matches competitor_key kw) kws)
  ∧ groups !! "Informational Queries" = Some []
  ∧ groups !! "Category Terms" = Some [].
Proof.
  intros Hin cls groups.
  assert (Hloc : ∀ kw, location_matches target_locations kw = true).
  { intros kw. unfold location_matches. apply existsb_exists.
    exists "". split; [by apply list_elem_of_In|]. apply contains_empty. }
  assert (Hchain : ∀ kw, cls kw =
            if key_matches brand_key kw then Brand
            else if key_matches competitor_key kw then Competitor
            else Location).
  { intros kw. unfold cls. by rewrite classify_chain, Hloc. }
  assert (Hcls : ∀ kw, cls kw ≠ Informational ∧ cls kw ≠ Category).
  { intros kw. rewrite Hchain. by repeat case_match. }
  assert (Hgroup : ∀ g (f : KeywordFull.t → bool),
            (∀ kw, bool_decide (cls kw = g) = f kw) →
            groups !! group_name g = Some (List.filter f kws)).
  { intros g f Hf. unfold groups. rewrite search_groups_lookup.
    unfold members_of. f_equal. by apply List.filter_ext. }
  assert (Hlocation : groups !! "Location-based Queries"
            = Some (List.filter
                      (λ kw, negb (key_matches brand_key kw)
                             && negb (key_matches competitor_key kw)) kws)).
  { apply (Hgroup Location). intros kw. rewrite Hchain.
    by destruct (key_matches brand_key kw), (key_matches competitor_key kw). }
  split; [apply contains_empty|]. split; [done|]. split.
  { intros kw Hb Hc. by rewrite Hchain, Hb, Hc. }
  split; [done|]. split; [done|]. split.
  { intros kw Hkw Hb Hc. eexists. split; [exact Hlocation|].
    apply elem_of_bool_filter. split; [done|]. by rewrite Hb, Hc. }
  split.
  { apply (Hgroup Brand). intros kw. rewrite Hchain.
    by destruct (key_matches brand_key kw), (key_matches competitor_key kw). }
  split.
  { apply (Hgroup Competitor). intros kw. rewrite Hchain.
    by destruct (key_matches brand_key kw), (key_matches competitor_key kw). }
  split.
  - change "Informational Queries" with (group_name Informational).
    unfold groups. rewrite search_groups_lookup. f_equal.
    apply bool_filter_nil. intros kw _. apply bool_decide_eq_false.
    apply Hcls.
  - change "Category Terms" with (group_name Category).
    unfold groups. rewrite search_groups_lookup. f_equal.
    apply bool_filter_nil. intros kw _. apply bool_decide_eq_false.
    apply Hcls.
Qed.

Lemma empty_location_entry_matches_all_witness :
  let powder :=
    KeywordFull.mk "best whey protein powder" (Some 900) None None in
  let acme := KeywordFull.mk "acme whey" (Some 700) None None in
  "" ∈ locations_list "Delhi,"
  ∧ search_groups "acme" "" "Delhi," [powder; acme]
    !! "Location-based Queries" = Some [powder]
  ∧ search_groups "acme" "" "Delhi," [powder; acme]
    !! "Informational Queries" = Some [].
Proof.
  intros powder acme.
  assert (H : "" ∈ locations_list "Delhi,").
  { vm_compute. apply list_elem_of_In. simpl. tauto. }
  split; [exact H|].
  destruct (empty_location_entry_matches_all "acme" "" "Delhi,"
              [powder; acme] H) as (_ & _ & _ & _ & Hl & _ & _ & _ & Hi & _).
  split; [|exact Hi]. rewrite Hl. by vm_compute.
Defined.

(** ** Root-domain extraction *)

Lemma prefix_drop_chars (p s : string) :
  String.prefix p s = true → s = p +:+ drop_chars (String.length p) s.
Proof.
  revert s. induction p as [|a p IH]; intros s H; [done|].
  destruct s as [|b s]; [done|]. simpl in H.
  destruct (ascii_dec a b) as [->|]; [|done].
  unfold String.append; simpl; fold String.append. f_equal. by apply IH.
Qed.

Lemma contains_cons (pat : string) (c : ascii) (s : string) :
  Py.contains pat (String c s) = false →
  String.prefix pat (String c s) = false ∧ Py.contains pat s = false.
Proof. simpl. by intros [? ?]%orb_false_iff. Qed.

Lemma remove_go_head (match_len : string → option nat) (c : ascii)
    (s : string) :
  Py.remove_go match_len 0 (String c s) =
  match match_len (String c s) with
  | Some (S k) => Py.remove_go match_len k s
  | _ => String c (Py.remove_go match_len 0 s)
  end.
Proof. done. Qed.

Lemma remove_all_absent (pat s : string) :
  Py.contains pat s = false → Py.remove_all pat s = s.
Proof.
  unfold Py.remove_all. induction s as [|c s IH]; intros H; [done|].
  apply contains_cons in H as [Hp Hs].
  rewrite remove_go_head, Hp. f_equal. by apply IH.
Qed.

Lemma re_sub_scheme_absent (s : string) :
  Py.contains "http://" s = false → Py.contains "https://" s = false →
  Py.re_sub_scheme s = s.
Proof.
  unfold Py.re_sub_scheme. induction s as [|c s IH]; intros H1 H2; [done|].
  apply contains_cons in H1 as [Hp1 Hs1].
  apply contains_cons in H2 as [Hp2 Hs2].
  rewrite remove_go_head. unfold Py.match_scheme at 1. rewrite Hp1, Hp2.
  f_equal. by apply IH.
Qed.

Lemma hd_split_on_dot (s : string) :
  hd "" (Py.split_on "." s) = before_dot s.
Proof.
  induction s as [|c s IH]; [done|]. simpl.
  case_decide; [done|]. rewrite <- IH.
  by destruct (Py.split_on "." s).
Qed.

Lemma prefix_empty (s : string) : String.prefix "" s = true.
Proof. by destruct s. Qed.

Lemma remove_all_www_head (rest : string) :
  Py.remove_all "www." (String "w" (String "w" (String "w" (String "." rest))))
  = Py.remove_all "www." rest.
Proof.
  unfold Py.remove_all. rewrite remove_go_head. cbv beta.
  simpl String.prefix. by rewrite prefix_empty.
Qed.

Lemma removal_after_scheme (u : string) :
  marker_free (strip_leading "www." u) →
  Py.remove_all "www." (Py.re_sub_scheme u) = strip_leading "www." u.
Proof.
  unfold strip_leading.
  destruct (String.prefix "www." u) eqn:Hw; intros (H1 & H2 & H3).
  - apply prefix_drop_chars in Hw. simpl String.length in *.
    set (rest := drop_chars 4 u) in *. rewrite Hw.
    unfold String.append; simpl; fold String.append.
    change (Py.remove_all "www."
              (String "w" (String "w" (String "w" (String "."
                 (Py.re_sub_scheme rest))))) = rest).
    rewrite re_sub_scheme_absent, remove_all_www_head by done.
    by apply remove_all_absent.
  - rewrite re_sub_scheme_absent by done. by apply remove_all_absent.
Qed.

Lemma re_sub_scheme_leading (url : string) :
  Py.re_sub_scheme url = Py.re_sub_scheme (strip_leading_scheme url).
Proof.
  unfold strip_leading_scheme.
  destruct (String.prefix "https://" url) eqn:H1.
  - apply prefix_drop_chars in H1. simpl String.length in H1.
    generalize dependent (drop_chars 8 url). intros r ->.
    unfold Py.re_sub_scheme, String.append.
    rewrite remove_go_head. unfold Py.match_scheme at 1.
    simpl String.prefix. by rewrite prefix_empty.
  - destruct (String.prefix "http://" url) eqn:H2; [|done].
    apply prefix_drop_chars in H2. simpl String.length in H2.
    generalize dependent (drop_chars 7 url). intros r ->.
    unfold Py.re_sub_scheme, String.append.
    rewrite remove_go_head. unfold Py.match_scheme at 1.
    simpl String.prefix. by rewrite prefix_empty.
Qed.

Lemma clean_domain_unfold (url : string) :
  clean_domain url
  = Py.lower (before_dot (Py.remove_all "www." (Py.re_sub_scheme url))).
Proof.
  unfold clean_domain. rewrite hd_split_on_dot.
  by destruct url.
Qed.

Lemma key_matches_empty (kw : KeywordFull.t) : key_matches "" kw = false.
Proof. done. Qed.

(** C8, as the code has it.  [clean_domain] removes every occurrence of
    [http://] or [https://] and then every occurrence of [www.], takes
    the text before the first dot and lower-cases it.  On a URL whose
    only scheme and [www.] marker are the leading ones this is the
    extraction of the specification; ["https://www.Acme.com/page"]
    gives ["acme"]; the empty input gives the empty token; and an empty
    brand or competitor token matches no keyword in the classifier. *)
Theorem clean_domain_leading_markers :
  (∀ url, clean_domain url
          = Py.lower (before_dot (Py.remove_all "www." (Py.re_sub_scheme url))))
  ∧ (∀ url, marker_free (strip_leading "www." (strip_leading_scheme url)) →
            clean_domain url = clean_domain_spec url)
  ∧ clean_domain "https://www.Acme.com/page" = "acme"
  ∧ clean_domain "" = ""
  ∧ (∀ kw, key_matches "" kw = false)
  ∧ (∀ competitor_key target_locations kw,
       classify "" competitor_key target_locations kw ≠ Brand)
  ∧ (∀ brand_key target_locations kw,
       classify brand_key "" target_locations kw ≠ Competitor).
Proof.
  split; [apply clean_domain_unfold|]. split.
  { intros url Hfree. rewrite clean_domain_unfold. unfold clean_domain_spec.
    by rewrite re_sub_scheme_leading, removal_after_scheme. }
  split; [done|]. split; [done|]. split; [done|]. split.
  - intros ck tl kw. rewrite classify_chain, key_matches_empty.
    by repeat case_match.
  - intros bk tl kw. rewrite classify_chain, key_matches_empty.
    by repeat case_match.
Qed.

Lemma clean_domain_leading_markers_witness :
  marker_free (strip_leading "www." (strip_leading_scheme "http://www.Shop.example.com"))
  ∧ clean_domain "http://www.Shop.example.com"
    = clean_domain_spec "http://www.Shop.example.com".
Proof.
  assert (H : marker_free
                (strip_leading "www."
                   (strip_leading_scheme "http://www.Shop.example.com"))).
  { by vm_compute. }
  split; [exact H|].
  exact (proj1 (proj2 clean_domain_leading_markers) _ H).
Defined.

(** C8, as stated, fails: a [www.] that is not leading is removed too.
    On ["mywww.example.com"] the text before the first dot is
    ["mywww"], and [clean_domain] returns ["myexample"]. *)
Lemma clean_domain_strips_inner_www :
  clean_domain "mywww.example.com" = "myexample"
  ∧ clean_domain_spec "mywww.example.com" = "mywww"
  ∧ clean_domain "mywww.example.com" ≠ clean_domain_spec "mywww.example.com".
Proof. by vm_compute. Qed.

(** ** Rounding *)

Lemma round_half_even_bounds (q : Q) :
  Qfloor q ≤ Py.round_half_even q ≤ Qfloor q + 1.
Proof.
  unfold Py.round_half_even.
  destruct (Qcompare_spec (q - inject_Z (Qfloor q)) (1 # 2));
    try destruct (Z.even (Qfloor q)); lia.
Qed.

Lemma round_half_even_comp (q q' : Q) :
  (q == q')%Q → Py.round_half_even q = Py.round_half_even q'.
Proof.
  intros H. unfold Py.round_half_even.
  rewrite (Qfloor_comp _ _ H).
  assert (E : (q - inject_Z (Qfloor q') ?= 1 # 2)%Q
              = (q' - inject_Z (Qfloor q') ?= 1 # 2)%Q).
  { apply Qcompare_comp; [by rewrite H|reflexivity]. }
  by rewrite E.
Qed.


Lemma round_half_even_mono (a b : Q) :
  (a <= b)%Q → Py.round_half_even a ≤ Py.round_half_even b.
Proof.
  intros Hab.
  pose proof (Qfloor_resp_le _ _ Hab) as Hf.
  destruct (decide (Qfloor a = Qfloor b)) as [Heq|Hne].
  - unfold Py.round_half_even. rewrite Heq.
    destruct (Qcompare_spec (a - inject_Z (Qfloor b)) (1 # 2)) as [Ha|Ha|Ha];
      destruct (Qcompare_spec (b - inject_Z (Qfloor b)) (1 # 2)) as [Hb|Hb|Hb];
      try destruct (Z.even (Qfloor b)); try lia; lra.
  - pose proof (round_half_even_bounds a). pose proof (round_half_even_bounds b).
    lia.
Qed.


Lemma round_half_even_nonneg (q : Q) : (0 <= q)%Q → 0 ≤ Py.round_half_even q.
Proof.
  intros H. change 0 with (Py.round_half_even 0) at 1.
  by apply round_half_even_mono.
Qed.



Lemma round_half_even_ceiling (q : Q) : Py.round_half_even q ≤ Qceiling q.
Proof.
  pose proof (Qle_ceiling q) as Hc. pose proof (Qfloor_le q) as Hf.
  unfold Py.round_half_even.
  assert (Hfc : Qfloor q ≤ Qceiling q).
  { rewrite Zle_Qle. lra. }
  assert (Hup : (inject_Z (Qfloor q) < q)%Q → Qfloor q + 1 ≤ Qceiling q).
  { intros H. assert (Hlt : (inject_Z (Qfloor q) < inject_Z (Qceiling q))%Q)
      by lra.
    rewrite <- Zlt_Qlt in Hlt. lia. }
  destruct (Qcompare_spec (q - inject_Z (Qfloor q)) (1 # 2)) as [H|H|H];
    try destruct (Z.even (Qfloor q)); try done; apply Hup; lra.
Qed.

Lemma cents_le (j k : Z) : j ≤ k → (j # 100 <= k # 100)%Q.
Proof. intros H. unfold Qle. simpl. lia. Qed.

Lemma cents_nonneg (k : Z) : 0 ≤ k → (0 <= k # 100)%Q.
Proof. intros H. unfold Qle. simpl. lia. Qed.

(** ** Characters kept by the string operations *)

Lemma split_on_no_sep (sep : ascii) (s p : string) :
  p ∈ Py.split_on sep s → sep ∉ chars p.
Proof.
  revert p. induction s as [|c s IH]; intros p; simpl.
  - intros ->%list_elem_of_singleton. apply not_elem_of_nil.
  - case_decide as Hc.
    + intros [->|Hp]%elem_of_cons; [apply not_elem_of_nil|by apply IH].
    + destruct (Py.split_on sep s) as [|h t] eqn:Hs.
      * intros ->%list_elem_of_singleton. unfold chars. simpl.
        intros [->|[]%not_elem_of_nil]%elem_of_cons. done.
      * intros [->|Hp]%elem_of_cons.
        -- unfold chars. simpl. intros [->|Hh]%elem_of_cons; [done|].
           by apply (IH h); [constructor|].
        -- apply IH. by constructor.
Qed.

Lemma lstrip_chars (x : ascii) (s : string) :
  x ∈ chars (Py.lstrip s) → x ∈ chars s.
Proof.
  induction s as [|c s IH]; simpl; [done|].
  destruct (Py.is_space c); [|done].
  intros H. unfold chars. simpl. right. by apply IH.
Qed.

Lemma rev_app_chars (x : ascii) (s1 s2 : string) :
  x ∈ chars (String.rev_app s1 s2) ↔ x ∈ chars s1 ∨ x ∈ chars s2.
Proof.
  revert s2. induction s1 as [|c s1 IH]; intros s2; simpl.
  - unfold chars at 2. simpl. rewrite elem_of_nil. tauto.
  - rewrite IH. unfold chars. simpl. rewrite !elem_of_cons. tauto.
Qed.

Lemma rev_chars (x : ascii) (s : string) :
  x ∈ chars (String.rev s) ↔ x ∈ chars s.
Proof.
  unfold String.rev. rewrite rev_app_chars.
  unfold chars at 2. simpl. rewrite elem_of_nil. tauto.
Qed.

Lemma strip_chars (x : ascii) (s : string) :
  x ∈ chars (Py.strip s) → x ∈ chars s.
Proof.
  unfold Py.strip, Py.rstrip. rewrite rev_chars.
  intros H%lstrip_chars. apply (proj1 (rev_chars _ _)) in H.
  by apply lstrip_chars.
Qed.

Lemma lstrip_float_chars (x : ascii) (s : string) :
  x ∈ chars (Py.lstrip_float s) → x ∈ chars s.
Proof.
  induction s as [|c s IH]; simpl; [done|].
  destruct (Py.is_float_space c); [|done].
  intros H. unfold chars. simpl. right. by apply IH.
Qed.

Lemma strip_float_chars (x : ascii) (s : string) :
  x ∈ chars (Py.strip_float s) → x ∈ chars s.
Proof.
  unfold Py.strip_float. rewrite rev_chars.
  intros H%lstrip_float_chars. apply (proj1 (rev_chars _ _)) in H.
  by apply lstrip_float_chars.
Qed.

Lemma float_space_is_space (c : ascii) :
  Py.is_float_space c = true → Py.is_space c = true.
Proof. destruct c as [[] [] [] [] [] [] [] []]; by vm_compute. Qed.

Lemma remove_go_chars (match_len : string → option nat) (x : ascii)
    (k : nat) (s : string) :
  x ∈ chars (Py.remove_go match_len k s) → x ∈ chars s.
Proof.
  revert k. induction s as [|c s IH]; intros k; simpl; [done|].
  unfold chars at 2. simpl. destruct k as [|k].
  - destruct (match_len (String c s)) as [[|j]|].
    + unfold chars at 1. simpl.
      intros [->|H]%elem_of_cons; [by left|right; by eapply IH].
    + intros H. right. by eapply IH.
    + unfold chars at 1. simpl.
      intros [->|H]%elem_of_cons; [by left|right; by eapply IH].
  - intros H. right. by eapply IH.
Qed.

(** ** [float]: a text without a minus sign is not negative *)

Lemma digit_val_nonneg (c : ascii) (d : Z) : Py.digit_val c = Some d → 0 ≤ d.
Proof.
  unfold Py.digit_val. case_match eqn:H; [|done].
  intros [= <-]. apply andb_true_iff in H as [H _].
  apply Nat.leb_le in H. lia.
Qed.

Lemma digits_go_nonneg (s : string) :
  (∀ acc n, 0 ≤ acc → 0 ≤ (Py.digits_go acc n s).1.1)
  ∧ (∀ c acc n, 0 ≤ acc → 0 ≤ (Py.digits_go acc n (String c s)).1.1).
Proof.
  induction s as [|a s [IH1 IH2]].
  - split; [done|]. intros c acc n Hacc. simpl.
    destruct (Py.digit_val c) as [d|] eqn:Hd; simpl.
    + apply digit_val_nonneg in Hd. lia.
    + by case_decide.
  - split; [apply IH2|]. intros c acc n Hacc.
    change (Py.digits_go acc n (String c (String a s))) with
      (match Py.digit_val c with
       | Some d => Py.digits_go (10 * acc + d) (S n) (String a s)
       | None =>
           if decide (c = "_"%char) then
             match Py.digit_val a with
             | Some d => Py.digits_go (10 * acc + d) (S n) s
             | None => (acc, n, String c (String a s))
             end
           else (acc, n, String c (String a s))
       end).
    destruct (Py.digit_val c) as [d|] eqn:Hd.
    + apply digit_val_nonneg in Hd. apply IH2. lia.
    + case_decide; [|done].
      destruct (Py.digit_val a) as [d|] eqn:Ha; [|done].
      apply digit_val_nonneg in Ha. apply IH1. lia.
Qed.

Lemma digitpart_nonneg (acc : Z) (s : string) (m : Z) (n : nat) (r : string) :
  0 ≤ acc → Py.digitpart acc s = Some (m, n, r) → 0 ≤ m.
Proof.
  intros Hacc. unfold Py.digitpart. destruct s as [|c s]; [done|].
  destruct (Py.digit_val c) as [d|] eqn:Hd; [|done].
  apply digit_val_nonneg in Hd. intros [= H].
  pose proof (proj1 (digits_go_nonneg s) (10 * acc + d) 1%nat) as Hn.
  rewrite H in Hn. simpl in Hn. apply Hn. lia.
Qed.

Lemma number_nonneg (s : string) (m : Z) (f : nat) (r : string) :
  Py.number s = Some (m, f, r) → 0 ≤ m.
Proof.
  unfold Py.number.
  destruct (Py.digitpart 0 s) as [[[m0 n0] r0]|] eqn:H0.
  - apply digitpart_nonneg in H0; [|done].
    destruct r0 as [|c r']; [by intros [= <- _ _]|].
    case_decide; [|by intros [= <- _ _]].
    destruct (Py.digitpart m0 r') as [[[m1 f1] r1]|] eqn:H1.
    + intros [= <- _ _]. by eapply digitpart_nonneg.
    + by intros [= <- _ _].
  - destruct s as [|c r']; [done|]. case_decide; [|done].
    by apply digitpart_nonneg.
Qed.

Lemma scale_nonneg (m e : Z) : 0 ≤ m → (0 <= Py.scale m e)%Q.
Proof.
  intros Hm. unfold Py.scale. case_match.
  - change 0%Q with (inject_Z 0). rewrite <- Zle_Qle.
    apply Z.mul_nonneg_nonneg; [done|]. apply Z.pow_nonneg. lia.
  - unfold Qdiv. apply Qmult_le_0_compat.
    + change 0%Q with (inject_Z 0). by rewrite <- Zle_Qle.
    + apply Qinv_le_0_compat. change 0%Q with (inject_Z 0).
      rewrite <- Zle_Qle. apply Z.pow_nonneg. lia.
Qed.

Lemma split_sign_no_minus (t : string) :
  "-"%char ∉ chars t → ∃ u, Py.split_sign t = (false, u).
Proof.
  unfold Py.split_sign. destruct t as [|c u]; [by eexists|].
  intros H. case_decide; [by eexists|].
  case_decide as Hc; [|by eexists].
  subst c. exfalso. apply H. by left.
Qed.

Lemma float_of_str_not_negative (s : string) (x : Py.float) :
  "-"%char ∉ chars s → Py.float_of_str s = Some x → not_negative x.
Proof.
  intros Hs. unfold Py.float_of_str.
  destruct (split_sign_no_minus (Py.strip_float s)) as [u ->].
  { intros H. by apply Hs, strip_float_chars. }
  case_decide; [by intros [= <-]|].
  case_decide; [by intros [= <-]|].
  destruct (Py.number u) as [[[m f] r]|] eqn:Hn; [|done].
  destruct (Py.exponent r) as [e|]; [|done].
  intros [= <-]. simpl. apply scale_nonneg. by eapply number_nonneg.
Qed.

(** ** CPC ranges and midpoints *)

Lemma parse_cpc_range_spec (r : string) (m : Py.float) :
  parse_cpc_range r = Some m ↔
  ∃ p1 p2 low high,
    Py.split_on "-" r = [p1; p2]
    ∧ Py.float_of_str (Py.remove_all "$" (Py.strip p1)) = Some low
    ∧ Py.float_of_str (Py.remove_all "$" (Py.strip p2)) = Some high
    ∧ m = Py.div_pos (Py.add low high) 2.
Proof.
  unfold parse_cpc_range. split.
  - destruct (mapM _ _) as [[|low [|high [|]]]|] eqn:Hm; try done.
    intros [= <-]. apply mapM_Some in Hm.
    apply Forall2_cons_inv_r in Hm as (p1 & l1 & H1 & Hm & Hs).
    apply Forall2_cons_inv_r in Hm as (p2 & l2 & H2 & Hm & ->).
    apply Forall2_nil_inv_r in Hm as ->.
    by exists p1, p2, low, high.
  - intros (p1 & p2 & low & high & -> & H1 & H2 & ->).
    simpl. rewrite H1. simpl. by rewrite H2.
Qed.

Lemma cpc_midpoint_spec (k : KeywordFull.t) (m : Py.float) :
  cpc_midpoint k = Some m ↔
  ∃ r, KeywordFull.cpc_range k = Some r ∧ r ≠ "" ∧ parse_cpc_range r = Some m.
Proof.
  unfold cpc_midpoint, Py.truthy. split.
  - destruct (KeywordFull.cpc_range k) as [r|]; [|done].
    case_bool_decide; [|done]. intros Hp. by exists r.
  - intros (r & -> & Hr & H). by rewrite bool_decide_true.
Qed.

Lemma add_not_negative (x y : Py.float) :
  not_negative x → not_negative y → not_negative (Py.add x y).
Proof. destruct x, y; simpl; try done. intros. lra. Qed.

Lemma half_not_negative (x : Py.float) :
  not_negative x → not_negative (Py.div_pos x 2).
Proof.
  destruct x; simpl; try done. intros H.
  unfold Qdiv. by apply Qmult_le_0_compat.
Qed.

Lemma cpc_part_not_negative (r p : string) (x : Py.float) :
  p ∈ Py.split_on "-" r →
  Py.float_of_str (Py.remove_all "$" (Py.strip p)) = Some x → not_negative x.
Proof.
  intros Hp. apply float_of_str_not_negative.
  intros H%remove_go_chars%strip_chars. by eapply split_on_no_sep.
Qed.

Lemma cpc_midpoint_not_negative (k : KeywordFull.t) (m : Py.float) :
  cpc_midpoint k = Some m → not_negative m.
Proof.
  intros (r & _ & _ & H)%cpc_midpoint_spec.
  apply parse_cpc_range_spec in H
    as (p1 & p2 & low & high & Hs & H1 & H2 & ->).
  apply half_not_negative, add_not_negative.
  - eapply (cpc_part_not_negative r p1); [|done]. rewrite Hs. by left.
  - eapply (cpc_part_not_negative r p2); [|done]. rewrite Hs.
    right. by left.
Qed.

(** ** The average CPC *)

Lemma foldl_add_fin (a : Q) (qs : list Q) :
  ∃ q, foldl Py.add (Py.Fin a) (Py.Fin <$> qs) = Py.Fin q
       ∧ (q == a + Qsum qs)%Q.
Proof.
  revert a. induction qs as [|b qs IH]; intros a; csimpl.
  - exists a. split; [done|]. unfold Qsum. simpl. lra.
  - destruct (IH (a + b)%Q) as (q & Hq & Hs). exists q. split; [done|].
    rewrite Hs. unfold Qsum. simpl. lra.
Qed.

Lemma avg_cpc_of_unfold (kws : list KeywordFull.t) :
  avg_cpc_of kws =
  if decide (cpc_midpoints kws = []) then Py.Fin 0
  else Py.round2
         (Py.div_pos (Py.sum (cpc_midpoints kws))
            (inject_Z (Z.of_nat (length (cpc_midpoints kws))))).
Proof.
  unfold avg_cpc_of. destruct (cpc_midpoints kws) as [|m ms]; [done|].
  rewrite decide_False by done. by rewrite Z.max_r by (simpl; lia).
Qed.

Lemma avg_cpc_of_mean (kws : list KeywordFull.t) (qs : list Q) :
  cpc_midpoints kws = Py.Fin <$> qs → qs ≠ [] →
  avg_cpc_of kws = Py.round2 (Py.Fin (Qmean qs)).
Proof.
  intros Hm Hne. rewrite avg_cpc_of_unfold, Hm.
  rewrite decide_False by (by destruct qs).
  unfold Py.sum. change (Py.of_int 0) with (Py.Fin 0).
  destruct (foldl_add_fin 0 qs) as (q & -> & Hq).
  simpl. do 2 f_equal.
  apply round_half_even_comp. unfold Qmean.
  rewrite length_fmap, Hq, Qplus_0_l. reflexivity.
Qed.


(** ** Ranges of the form ["$low - $high"] *)

Lemma append_cons (c : ascii) (s t : string) :
  String c s +:+ t = String c (s +:+ t).
Proof. done. Qed.

Lemma append_empty_r (s : string) : s +:+ "" = s.
Proof. induction s as [|c s IH]; [done|]. by rewrite append_cons, IH. Qed.

Lemma append_assoc (s t u : string) : (s +:+ t) +:+ u = s +:+ t +:+ u.
Proof.
  induction s as [|c s IH]; [done|]. by rewrite !(append_cons c), IH.
Qed.

Lemma append_chars (s t : string) : chars (s +:+ t) = chars s ++ chars t.
Proof.
  induction s as [|c s IH]; [done|].
  rewrite append_cons. unfold chars in *. simpl. by rewrite IH.
Qed.

Lemma rev_app_append (s t acc : string) :
  String.rev_app (s +:+ t) acc = String.rev_app t (String.rev_app s acc).
Proof.
  revert acc. induction s as [|c s IH]; intros acc; [done|].
  rewrite append_cons. simpl. apply IH.
Qed.

Lemma rev_app_rev_app (s acc acc' : string) :
  String.rev_app (String.rev_app s acc) acc'
  = String.rev_app acc (s +:+ acc').
Proof.
  revert acc acc'. induction s as [|c s IH]; intros acc acc'; [done|].
  simpl. by rewrite IH.
Qed.

Lemma rev_rev (s : string) : String.rev (String.rev s) = s.
Proof.
  unfold String.rev. rewrite rev_app_rev_app. simpl. apply append_empty_r.
Qed.

Lemma lstrip_no_blank (s : string) :
  (∀ c, c ∈ chars s → Py.is_space c = false) → Py.lstrip s = s.
Proof.
  destruct s as [|c s]; [done|]. intros H. simpl.
  rewrite (H c); [done|]. by left.
Qed.

Lemma rstrip_no_blank (s : string) :
  (∀ c, c ∈ chars s → Py.is_space c = false) → Py.rstrip s = s.
Proof.
  intros H. unfold Py.rstrip. rewrite lstrip_no_blank; [apply rev_rev|].
  intros c Hc. by apply H, rev_chars.
Qed.

Lemma rstrip_space (s : string) : Py.rstrip (s +:+ " ") = Py.rstrip s.
Proof.
  unfold Py.rstrip. f_equal. unfold String.rev.
  by rewrite rev_app_append.
Qed.

Lemma split_on_absent (sep : ascii) (s : string) :
  sep ∉ chars s → Py.split_on sep s = [s].
Proof.
  induction s as [|c s IH]; [done|]. intros H.
  apply not_elem_of_cons in H as [Hc Hs]. simpl.
  rewrite decide_False by done. by rewrite IH.
Qed.

Lemma split_on_append (sep : ascii) (u v : string) :
  sep ∉ chars u →
  Py.split_on sep (u +:+ String sep v) = u :: Py.split_on sep v.
Proof.
  induction u as [|c u IH]; intros H.
  - simpl. by rewrite decide_True.
  - apply not_elem_of_cons in H as [Hc Hu].
    rewrite append_cons. simpl. rewrite decide_False by done.
    by rewrite IH.
Qed.

Lemma contains_char_absent (c : ascii) (s : string) :
  c ∉ chars s → Py.contains (String c "") s = false.
Proof.
  induction s as [|d s IH]; [done|]. intros H.
  apply not_elem_of_cons in H as [Hc Hs]. simpl.
  destruct (ascii_dec c d) as [->|_]; [done|]. by apply IH.
Qed.

Lemma cpc_part_plain (a : string) (lead : string) :
  plain a → lead = "" ∨ lead = " " →
  Py.remove_all "$" (Py.strip (lead +:+ "$" +:+ a)) = a
  ∧ Py.remove_all "$" (Py.strip (lead +:+ "$" +:+ a +:+ " ")) = a.
Proof.
  intros Ha Hlead.
  assert (Hd : ∀ c, c ∈ chars (String "$" a) → Py.is_space c = false).
  { intros c [->|Hc]%elem_of_cons; [done|]. by apply Ha. }
  assert (Hr : Py.remove_all "$" (String "$" a) = a).
  { unfold Py.remove_all. rewrite remove_go_head. cbv beta.
    simpl String.prefix. rewrite prefix_empty. simpl String.length.
    apply remove_all_absent, contains_char_absent.
    intros Hc. by apply Ha in Hc as (_ & ? & _). }
  assert (Hs : Py.strip (String "$" a) = String "$" a
               ∧ Py.strip (String "$" (a +:+ " ")) = String "$" a).
  { unfold Py.strip. simpl Py.lstrip. split.
    - by apply rstrip_no_blank.
    - rewrite <- append_cons, rstrip_space. by apply rstrip_no_blank. }
  destruct Hlead as [->| ->].
  - change ("" +:+ "$" +:+ a) with (String "$" a).
    change ("" +:+ "$" +:+ a +:+ " ") with (String "$" (a +:+ " ")).
    destruct Hs as [-> ->]. by split.
  - assert (Hl : ∀ t, Py.strip (" " +:+ "$" +:+ t) = Py.strip (String "$" t))
      by done.
    rewrite !Hl. destruct Hs as [-> ->]. by split.
Qed.

Lemma dollar_range_parses (a b : string) (low high : Py.float) :
  plain a → plain b →
  Py.float_of_str a = Some low → Py.float_of_str b = Some high →
  parse_cpc_range ("$" +:+ a +:+ " - $" +:+ b)
  = Some (Py.div_pos (Py.add low high) 2).
Proof.
  intros Ha Hb Hlow Hhigh. apply parse_cpc_range_spec.
  exists ("$" +:+ a +:+ " "), (" $" +:+ b), low, high.
  split.
  { transitivity (Py.split_on "-" (("$" +:+ a +:+ " ") +:+ String "-" (" $" +:+ b))).
    - f_equal. change ("$" +:+ a +:+ " - $" +:+ b)
        with (String "$" (a +:+ " - $" +:+ b)).
      change (("$" +:+ a +:+ " ") +:+ String "-" (" $" +:+ b))
        with (String "$" ((a +:+ " ") +:+ String "-" (" $" +:+ b))).
      f_equal. by rewrite append_assoc.
    - rewrite split_on_append, split_on_absent; [done| |].
      + change (chars (" $" +:+ b)) with (" "%char :: "$"%char :: chars b).
        rewrite !not_elem_of_cons. split; [done|]. split; [done|].
        intros Hc. by apply Hb in Hc as (? & _).
      + change (chars ("$" +:+ a +:+ " "))
          with ("$"%char :: chars (a +:+ " ")).
        rewrite not_elem_of_cons, append_chars, not_elem_of_app.
        split; [done|]. split.
        * intros Hc. by apply Ha in Hc as (? & _).
        * by intros ?%list_elem_of_singleton. }
  destruct (cpc_part_plain a "" Ha (or_introl eq_refl)) as [_ H1].
  destruct (cpc_part_plain b " " Hb (or_intror eq_refl)) as [H2 _].
  change ("" +:+ "$" +:+ a +:+ " ") with ("$" +:+ a +:+ " ") in H1.
  change (" " +:+ "$" +:+ b) with (" $" +:+ b) in H2.
  by rewrite H1, H2.
Qed.



(** ** The plan as a whole *)

Lemma target_cpc_converts_spec (total_budget total_volume : Z) :
  target_cpc_converts total_budget total_volume = true ↔
  total_volume ≤ 0
  ∨ (Z.abs total_budget < 2 ^ 1024 - 2 ^ 970
     ∧ total_volume < 2 ^ 1024 - 2 ^ 970).
Proof.
  unfold target_cpc_converts, Py.int_fits_float.
  set (T := 2 ^ 1024 - 2 ^ 970).
  assert (HT : 1 < T) by (by vm_compute).
  clearbody T.
  rewrite orb_true_iff, andb_true_iff, negb_true_iff, !Z.ltb_lt, Z.ltb_ge.
  lia.
Qed.

Lemma generate_sem_plan_cases (env : Env) (inputs : SEMInputs.t) :
  let total_budget := total_budget_of (SEMInputs.budget_allocations inputs) in
  generate_sem_plan env inputs =
  match
    get_keywords_from_google env (SEMInputs.themes inputs) (page_url_of inputs)
  with
  | None => Raise (HTTPException 500)
  | Some keywords_data =>
      let kws := keyword_objects keywords_data in
      match
        generate_pmax_themes_llm env (KeywordFull.keyword <$> kws)
          (locations_list (SEMInputs.target_locations inputs))
      with
      | Raise e => Raise e
      | Ok pmax_map =>
          if target_cpc_converts total_budget (sum_volume kws) then
            match SEMInputs.themes inputs with
            | None => Raise ValidationError
            | Some themes =>
                Ok (SEMOutput.mk (SEMInputs.brand_website inputs)
                      (SEMInputs.competitor_website inputs)
                      (locations_list (SEMInputs.target_locations inputs))
                      (SEMInputs.budget_allocations inputs) total_budget
                      (Z.of_nat (length kws)) (sum_volume kws)
                      (avg_cpc_of kws) themes
                      (search_groups
                         (clean_domain (SEMInputs.brand_website inputs))
                         (clean_domain
                            (default "" (SEMInputs.competitor_website inputs)))
                         (SEMInputs.target_locations inputs) kws)
                      pmax_map
                      (suggestion
                         (target_cpc_of total_budget (sum_volume kws))
                       <$> kws))
            end
          else Raise OverflowError
      end
  end.
Proof.
  intros total_budget. unfold generate_sem_plan.
  destruct (get_keywords_from_google _ _ _) as [data|]; [|done].
  destruct (generate_pmax_themes_llm _ _ _) as [pm|e]; [|done].
  cbn. fold total_budget.
  destruct (target_cpc_converts _ _); [|done]. cbn.
  by destruct (SEMInputs.themes inputs).
Qed.

Lemma generate_sem_plan_Ok (env : Env) (inputs : SEMInputs.t)
    (out : SEMOutput.t) :
  generate_sem_plan env inputs = Ok out →
  ∃ keywords_data pmax_map themes,
    get_keywords_from_google env (SEMInputs.themes inputs)
      (page_url_of inputs) = Some keywords_data
    ∧ generate_pmax_themes_llm env
        (KeywordFull.keyword <$> keyword_objects keywords_data)
        (locations_list (SEMInputs.target_locations inputs)) = Ok pmax_map
    ∧ SEMInputs.themes inputs = Some themes
    ∧ out =
      let kws := keyword_objects keywords_data in
      let total_budget :=
        total_budget_of (SEMInputs.budget_allocations inputs) in
      SEMOutput.mk (SEMInputs.brand_website inputs)
        (SEMInputs.competitor_website inputs)
        (locations_list (SEMInputs.target_locations inputs))
        (SEMInputs.budget_allocations inputs) total_budget
        (Z.of_nat (length kws)) (sum_volume kws) (avg_cpc_of kws) themes
        (search_groups (clean_domain (SEMInputs.brand_website inputs))
           (clean_domain (default "" (SEMInputs.competitor_website inputs)))
           (SEMInputs.target_locations inputs) kws)
        pmax_map
        (suggestion (target_cpc_of total_budget (sum_volume kws)) <$> kws).
Proof.
  rewrite generate_sem_plan_cases. cbv zeta.
  destruct (get_keywords_from_google _ _ _) as [data|] eqn:Hd; [|done].
  destruct (generate_pmax_themes_llm _ _ _) as [pm|] eqn:Hpm; [|done].
  destruct (target_cpc_converts _ _); [|done].
  destruct (SEMInputs.themes inputs) as [ths|] eqn:Hth; [|done].
  intros [= <-]. by exists data, pm, ths.
Qed.

Lemma generate_sem_plan_converts (env : Env) (inputs : SEMInputs.t)
    (out : SEMOutput.t) :
  generate_sem_plan env inputs = Ok out →
  target_cpc_converts (SEMOutput.total_budget out) (SEMOutput.total_volume out)
  = true.
Proof.
  rewrite generate_sem_plan_cases. cbv zeta.
  destruct (get_keywords_from_google _ _ _) as [data|]; [|done].
  destruct (generate_pmax_themes_llm _ _ _) as [pm|]; [|done].
  destruct (target_cpc_converts _ _) eqn:Hc; [|done].
  destruct (SEMInputs.themes inputs) as [ths|]; [|done].
  by intros [= <-].
Qed.

(** ** Bid suggestions *)






(** ** Budget validation *)

(** C9, as the code has it.  Validation accepts every triple of
    integers, whatever their signs; every returned plan echoes the
    allocation and has [total_budget = cap + bud + pmax]; and once the
    keyword fetch has succeeded and the theme synthesis has returned,
    the plan raises [OverflowError] when a keyword survives and the
    total budget or the total volume is beyond the doubles, and is
    returned otherwise provided the seed themes are a list; the sign
    of the budget plays no part in this. *)
Theorem total_budget_is_sum :
  (∀ cap bud pmax,
     BudgetAllocations.validate cap bud pmax
     = Ok (BudgetAllocations.mk cap bud pmax))
  ∧ (∀ env inputs out, generate_sem_plan env inputs = Ok out →
       let b := SEMInputs.budget_allocations inputs in
       SEMOutput.budget_allocations out = b
       ∧ SEMOutput.total_budget out
         = BudgetAllocations.cap b + BudgetAllocations.bud b
           + BudgetAllocations.pmax b)
  ∧ (∀ env inputs keywords_data pmax_map,
       get_keywords_from_google env (SEMInputs.themes inputs)
         (page_url_of inputs) = Some keywords_data →
       generate_pmax_themes_llm env
         (KeywordFull.keyword <$> keyword_objects keywords_data)
         (locations_list (SEMInputs.target_locations inputs)) = Ok pmax_map →
       let b := SEMInputs.budget_allocations inputs in
       let total_budget :=
         BudgetAllocations.cap b + BudgetAllocations.bud b
         + BudgetAllocations.pmax b in
       let total_volume := sum_volume (keyword_objects keywords_data) in
       (target_cpc_converts total_budget total_volume = false →
        generate_sem_plan env inputs = Raise OverflowError)
       ∧ (∀ themes,
            target_cpc_converts total_budget total_volume = true →
            SEMInputs.themes inputs = Some themes →
            ∃ out, generate_sem_plan env inputs = Ok out))
  ∧ (∀ total_budget total_volume,
       target_cpc_converts total_budget total_volume = true ↔
       total_volume ≤ 0
       ∨ (Z.abs total_budget < 2 ^ 1024 - 2 ^ 970
          ∧ total_volume < 2 ^ 1024 - 2 ^ 970)).
Proof.
  split; [done|]. split.
  { intros env inputs out
      (data & pm & ths & _ & _ & _ & ->)%generate_sem_plan_Ok. done. }
  split.
  - intros env inputs data pm Hd Hpm b total_budget total_volume.
    rewrite generate_sem_plan_cases. cbv zeta. rewrite Hd, Hpm.
    fold b. change (total_budget_of b) with total_budget.
    fold total_volume. split.
    + by intros ->.
    + intros ths -> ->. by eexists.
  - intros total_budget total_volume. apply target_cpc_converts_spec.
Qed.

Lemma total_budget_is_sum_witness :
  ∃ out, generate_sem_plan sample_env (sample_inputs 100 200 300) = Ok out
         ∧ SEMOutput.total_budget out = 600.
Proof.
  eexists. split; [reflexivity|].
  exact (proj2 (proj1 (proj2 total_budget_is_sum) sample_env
                  (sample_inputs 100 200 300) _ eq_refl)).
Defined.

(** C9, as stated, fails: the allocation (-100000, 0, 0) has a
    negative component, validates, and the plan is computed with a
    total budget of -100000. *)
Lemma negative_budget_accepted :
  BudgetAllocations.validate (-100000) 0 0
  = Ok (BudgetAllocations.mk (-100000) 0 0)
  ∧ ∃ out,
      generate_sem_plan sample_env (sample_inputs (-100000) 0 0) = Ok out
      ∧ SEMOutput.total_budget out = -100000.
Proof. split; [done|]. eexists. split; [reflexivity|]. done. Qed.

(** ** [uniq]: first occurrences, in order *)

Lemma uniq_go_elem (seen : gset string) (l : list string) (x : string) :
  x ∈ uniq_go seen l ↔ x ∈ l ∧ x ∉ seen.
Proof.
  revert seen. induction l as [|a l IH]; intros seen; simpl.
  - rewrite elem_of_nil. tauto.
  - case_decide as Ha.
    + rewrite IH, elem_of_cons. intuition congruence.
    + rewrite !elem_of_cons, IH, elem_of_union, elem_of_singleton.
      destruct (decide (x = a)); intuition congruence.
Qed.

Lemma uniq_go_NoDup (seen : gset string) (l : list string) :
  NoDup (uniq_go seen l).
Proof.
  revert seen. induction l as [|a l IH]; intros seen; simpl.
  - constructor.
  - case_decide; [apply IH|]. constructor; [|apply IH].
    rewrite uniq_go_elem, elem_of_union, elem_of_singleton. tauto.
Qed.

Lemma uniq_go_snoc (seen : gset string) (l : list string) (x : string) :
  uniq_go seen (l ++ [x])
  = uniq_go seen l ++ (if decide (x ∈ seen ∨ x ∈ l) then [] else [x]).
Proof.
  revert seen. induction l as [|a l IH]; intros seen; simpl.
  - apply decide_ext. rewrite elem_of_nil. tauto.
  - destruct (decide (a ∈ seen)) as [Ha|Ha]; rewrite IH.
    + f_equal. apply decide_ext. rewrite elem_of_cons.
      split; [tauto|]. intros [?|[->|?]]; tauto.
    + simpl. do 2 f_equal. apply decide_ext.
      rewrite elem_of_union, elem_of_singleton, elem_of_cons. tauto.
Qed.

Lemma uniq_first_seen (l : list string) :
  NoDup (uniq l)
  ∧ (∀ x, x ∈ uniq l ↔ x ∈ l)
  ∧ (∀ x, uniq (l ++ [x]) = if decide (x ∈ l) then uniq l else uniq l ++ [x]).
Proof.
  split; [apply uniq_go_NoDup|]. split.
  - intros x. unfold uniq. rewrite uniq_go_elem.
    split; [by intros [? _]|]. intros H. split; [done|].
    apply not_elem_of_empty.
  - intros x. unfold uniq. rewrite uniq_go_snoc.
    destruct (decide (x ∈ l)) as [Hx|Hx].
    + rewrite decide_True by (by right). apply app_nil_r.
    + rewrite decide_False; [done|].
      intros [H|H]; [by apply not_elem_of_empty in H|done].
Qed.

(** ** Reclassification of the themes *)

Lemma bucket_values_cons (b : bucket) (t : json) (ts : list json) :
  bucket_values b (t :: ts)
  = (if decide (theme_bucket t = b) then theme_kws t else [])
    ++ bucket_values b ts.
Proof.
  unfold bucket_values. simpl. case_bool_decide.
  - by rewrite decide_True.
  - by rewrite decide_False.
Qed.

Lemma reclassify_buckets (ts : list json) (bs : buckets) :
  Forall (λ t, ∃ name, theme_name t = Ok name) ts →
  reclassify bs ts
  = Ok {| product_keywords := product_keywords bs ++ bucket_values Product ts;
          usecase_long := usecase_long bs ++ bucket_values Usecase ts;
          demographic_keywords :=
            demographic_keywords bs ++ bucket_values Demographic ts;
          seasonal_keywords :=
            seasonal_keywords bs ++ bucket_values Seasonal ts |}.
Proof.
  intros Hts. revert bs.
  induction Hts as [|t ts [name Hn] _ IH]; intros bs.
  - simpl. unfold bucket_values. simpl. rewrite !app_nil_r. by destruct bs.
  - rewrite !bucket_values_cons. unfold theme_bucket. rewrite Hn.
    simpl reclassify. rewrite Hn. cbn [mbind result_bind]. rewrite IH.
    destruct (bucket_of_name name); simpl; by rewrite <- ?app_assoc.
Qed.

Lemma uniq_bucket_strings (l : list json) :
  Forall (λ v, is_Some (as_str v)) l →
  uniq_bucket l = Ok (uniq (omap as_str l)).
Proof.
  intros Hl. unfold uniq_bucket.
  assert (Hm : mapM as_str l = Some (omap as_str l)).
  { apply mapM_Some. induction Hl as [|v l [s Hs] _ IH]; simpl.
    - constructor.
    - rewrite Hs. by constructor. }
  assert (Hh : forallb hashable l = true).
  { apply forallb_forall. intros v Hv%list_elem_of_In.
    rewrite Forall_forall in Hl. destruct (Hl v Hv) as [s Hs].
    by destruct v. }
  by rewrite Hh, Hm.
Qed.

Lemma bucket_values_strings (b : bucket) (ts : list json) :
  Forall well_typed_theme ts →
  Forall (λ v, is_Some (as_str v)) (bucket_values b ts).
Proof.
  intros Hts. induction Hts as [|t ts [_ Ht] _ IH].
  - constructor.
  - rewrite bucket_values_cons. apply Forall_app. split; [|done].
    case_decide; [done|constructor].
Qed.

Lemma themes_list_of_dict (members : list (string * json)) :
  ∃ v, themes_list_of (JObj members) = Ok v
       ∧ match v with
         | JArr ts => reclassify no_buckets ts
         | _ => Ok no_buckets
         end = reclassify no_buckets (source_themes members).
Proof.
  unfold themes_list_of, source_themes.
  destruct (jget "themes" members) as [v|]; [|by eexists].
  destruct (json_truthy v) eqn:Hv; [by eexists; destruct v|].
  eexists. split; [done|].
  destruct v as [| | | |ts|]; try done.
  simpl in Hv. by apply bool_decide_eq_false, dec_stable in Hv as ->.
Qed.

Lemma themes_of_parsed_dict (members : list (string * json))
    (keywords locations : list string) :
  Forall well_typed_theme (source_themes members) →
  let ts := source_themes members in
  themes_of_parsed (JObj members) keywords locations
  = Ok {[ "product" :=
            PMaxTheme.mk
              (or_list (uniq (bucket_keywords Product ts)) (uniq keywords)) 0;
          "usecase" := PMaxTheme.mk (uniq (bucket_keywords Usecase ts)) 0;
          "demographic" :=
            PMaxTheme.mk
              (or_list (uniq (bucket_keywords Demographic ts)) locations) 0;
          "seasonal" := PMaxTheme.mk (uniq (bucket_keywords Seasonal ts)) 0 ]}.
Proof.
  intros Hts ts. unfold themes_of_parsed.
  destruct (themes_list_of_dict members) as (v & -> & Hv). cbn.
  rewrite Hv, reclassify_buckets
    by (eapply Forall_impl; [exact Hts|by intros t [? _]]).
  cbn. rewrite !uniq_bucket_strings by by apply bucket_values_strings.
  done.
Qed.

Lemma bucket_values_partition (ts : list json) :
  concat (theme_kws <$> ts)
  ≡ₚ bucket_values Product ts ++ bucket_values Usecase ts
     ++ bucket_values Demographic ts ++ bucket_values Seasonal ts.
Proof.
  induction ts as [|t ts IH]; [done|].
  rewrite !bucket_values_cons. csimpl. rewrite IH.
  destruct (theme_bucket t); simpl; rewrite ?app_nil_r.
  - by rewrite <- app_assoc.
  - rewrite (app_assoc (theme_kws t)).
    rewrite (Permutation_app_comm (theme_kws t)). by rewrite <- !app_assoc.
  - rewrite (app_assoc (theme_kws t)).
    rewrite (Permutation_app_comm (theme_kws t)). rewrite <- !app_assoc.
    f_equiv. rewrite (app_assoc (theme_kws t)).
    rewrite (Permutation_app_comm (theme_kws t)). by rewrite <- !app_assoc.
  - rewrite (app_assoc (theme_kws t)).
    rewrite (Permutation_app_comm (theme_kws t)). rewrite <- !app_assoc.
    f_equiv. rewrite (app_assoc (theme_kws t)).
    rewrite (Permutation_app_comm (theme_kws t)). rewrite <- !app_assoc.
    f_equiv. rewrite (app_assoc (theme_kws t)).
    rewrite (Permutation_app_comm (theme_kws t)). by rewrite <- !app_assoc.
Qed.

Lemma generate_pmax_themes_llm_response (env : Env)
    (keywords locations : list string)
    (generate_content : list string → option string) (resp_text : string) :
  model env = Some generate_content →
  generate_content keywords = Some resp_text →
  generate_pmax_themes_llm env keywords locations
  = themes_of_parsed (parse_llm_json (json_loads env) resp_text)
      keywords locations.
Proof. intros Hm Hg. unfold generate_pmax_themes_llm. by rewrite Hm, Hg. Qed.

(** C4, as the code has it.  When the collaborator answers and the
    parsed response is an object whose themes are well typed, every
    theme feeds the one bucket its lower-cased name selects in the
    order product, usecase, demographic, seasonal, else product; a
    keyword value that is not a list brings nothing; the buckets share
    out the keywords of the themes; each bucket is de-duplicated with
    first occurrences kept in order; and the result is: product = the
    de-duplicated bucket, or the de-duplicated original keyword list
    when that bucket is empty; usecase and seasonal = their
    de-duplicated buckets; demographic = the de-duplicated bucket, or
    the location list when it is empty; every [total_volume] is 0. *)
Theorem reclassified_themes (env : Env) (keywords locations : list string)
    (generate_content : list string → option string) (resp_text : string)
    (members : list (string * json)) :
  model env = Some generate_content →
  generate_content keywords = Some resp_text →
  parse_llm_json (json_loads env) resp_text = JObj members →
  Forall well_typed_theme (source_themes members) →
  let ts := source_themes members in
  generate_pmax_themes_llm env keywords locations
  = Ok {[ "product" :=
            PMaxTheme.mk
              (or_list (uniq (bucket_keywords Product ts)) (uniq keywords)) 0;
          "usecase" := PMaxTheme.mk (uniq (bucket_keywords Usecase ts)) 0;
          "demographic" :=
            PMaxTheme.mk
              (or_list (uniq (bucket_keywords Demographic ts)) locations) 0;
          "seasonal" := PMaxTheme.mk (uniq (bucket_keywords Seasonal ts)) 0 ]}
  ∧ (∀ t name, theme_name t = Ok name →
       theme_bucket t =
       if any_in product_tokens name then Product
       else if any_in usecase_tokens name then Usecase
       else if any_in demographic_tokens name then Demographic
       else if any_in seasonal_tokens name then Seasonal
       else Product)
  ∧ (∀ ms v, jget "keywords" ms = Some v → (∀ l, v ≠ JArr l) →
       theme_kws (JObj ms) = [])
  ∧ concat (theme_kws <$> ts)
    ≡ₚ bucket_values Product ts ++ bucket_values Usecase ts
       ++ bucket_values Demographic ts ++ bucket_values Seasonal ts
  ∧ (∀ l, NoDup (uniq l)
          ∧ (∀ x, x ∈ uniq l ↔ x ∈ l)
          ∧ (∀ x, uniq (l ++ [x])
                  = if decide (x ∈ l) then uniq l else uniq l ++ [x])).
Proof.
  intros Hm Hg Hp Hts ts.
  split.
  { rewrite (generate_pmax_themes_llm_response env keywords locations
               generate_content resp_text Hm Hg), Hp.
    by apply themes_of_parsed_dict. }
  split.
  { intros t name Hn. unfold theme_bucket. by rewrite Hn. }
  split.
  { intros ms v Hv Hl. simpl. rewrite Hv. destruct v; try done.
    by destruct (Hl items). }
  split; [apply bucket_values_partition|apply uniq_first_seen].
Qed.

Lemma reclassified_themes_witness :
  ∃ themes,
    generate_pmax_themes_llm
      (llm_env "seasonal-only response"
         [("seasonal-only response", seasonal_only)])
      ["whey protein"; "vegan protein"] ["Delhi"] = Ok themes
    ∧ PMaxTheme.keywords <$> themes !! "seasonal" = Some ["summer whey"]
    ∧ PMaxTheme.keywords <$> themes !! "demographic" = Some ["Delhi"].
Proof.
  assert (Hts : Forall well_typed_theme
                  (source_themes
                     [("themes",
                       JArr [JObj [("name", JStr "Summer Sale");
                                   ("keywords",
                                    JArr [JStr "summer whey";
                                          JStr "summer whey"])]])])).
  { repeat constructor; by eexists. }
  eexists. split.
  - exact (proj1 (reclassified_themes
                    (llm_env "seasonal-only response"
                       [("seasonal-only response", seasonal_only)])
                    ["whey protein"; "vegan protein"] ["Delhi"]
                    (λ _, Some "seasonal-only response")
                    "seasonal-only response" _ eq_refl eq_refl eq_refl Hts)).
  - split; by vm_compute.
Defined.

(** C4, as stated, fails: when the product bucket is empty the product
    theme is the de-duplicated keyword list, not the full one.  With
    the keywords ["whey protein"; "whey protein"] and a response whose
    only theme is seasonal, the product theme is ["whey protein"]. *)
Lemma empty_product_bucket_deduplicates :
  ∃ themes,
    generate_pmax_themes_llm
      (llm_env "seasonal-only response"
         [("seasonal-only response", seasonal_only)])
      ["whey protein"; "whey protein"] ["Delhi"] = Ok themes
    ∧ themes !! "product" = Some (PMaxTheme.mk ["whey protein"] 0)
    ∧ themes !! "product"
      ≠ Some (PMaxTheme.mk ["whey protein"; "whey protein"] 0).
Proof.
  eexists. split; [by vm_compute|]. split; by vm_compute.
Qed.

(** ** The fallback themes *)

(** C5.  When no model is configured, or the call to it raises, the
    synthesizer returns the fallback: four themes, product = the
    keyword list as given, usecase = the keywords of three or more
    blank-separated tokens, demographic = the location list, seasonal =
    one entry "<location> seasonal trends" per location, each with
    [total_volume] 0. *)
Theorem fallback_themes (env : Env) (keywords locations : list string) :
  model env = None
  ∨ (∃ generate_content,
       model env = Some generate_content ∧ generate_content keywords = None) →
  ∃ themes,
    generate_pmax_themes_llm env keywords locations = Ok themes
    ∧ dom themes = {[ "product"; "usecase"; "demographic"; "seasonal" ]}
    ∧ themes !! "product" = Some (PMaxTheme.mk keywords 0)
    ∧ themes !! "usecase"
      = Some (PMaxTheme.mk
                (List.filter (λ kw, (3 <=? length (Py.split kw))%nat) keywords)
                0)
    ∧ (∀ kw, kw ∈ List.filter (λ kw, (3 <=? length (Py.split kw))%nat) keywords
             ↔ kw ∈ keywords ∧ (3 ≤ length (Py.split kw))%nat)
    ∧ themes !! "demographic" = Some (PMaxTheme.mk locations 0)
    ∧ themes !! "seasonal"
      = Some (PMaxTheme.mk
                ((λ loc, loc +:+ " seasonal trends") <$> locations) 0).
Proof.
  intros H. exists (fallback keywords locations). split.
  { unfold generate_pmax_themes_llm.
    destruct H as [->|(g & -> & ->)]; done. }
  unfold fallback. split.
  { rewrite !dom_insert_L, dom_singleton_L. set_solver. }
  split; [done|]. split; [done|]. split.
  { intros kw. rewrite elem_of_bool_filter. by rewrite Nat.leb_le. }
  split; done.
Qed.

Lemma fallback_themes_witness :
  ∃ themes,
    generate_pmax_themes_llm sample_env
      ["whey protein"; "best whey protein powder"; "whey protein"]
      ["Delhi"; "Mumbai"] = Ok themes
    ∧ themes !! "product"
      = Some (PMaxTheme.mk
                ["whey protein"; "best whey protein powder"; "whey protein"] 0)
    ∧ themes !! "usecase"
      = Some (PMaxTheme.mk ["best whey protein powder"] 0)
    ∧ themes !! "seasonal"
      = Some (PMaxTheme.mk
                ["Delhi seasonal trends"; "Mumbai seasonal trends"] 0).
Proof.
  destruct (fallback_themes sample_env
              ["whey protein"; "best whey protein powder"; "whey protein"]
              ["Delhi"; "Mumbai"] (or_introl eq_refl))
    as (themes & Hg & _ & Hp & Hu & _ & _ & Hs).
  exists themes. split; [done|]. split; [done|]. split; [|done].
  rewrite Hu. by vm_compute.
Defined.

(** ** JSON recovery *)

Lemma find_first (c : ascii) (s : string) :
  -1 ≤ Py.find c s
  ∧ (Py.find c s = -1 → c ∉ chars s)
  ∧ (Py.find c s ≠ -1 →
     chars s !! Z.to_nat (Py.find c s) = Some c
     ∧ ∀ j, (j < Z.to_nat (Py.find c s))%nat → chars s !! j ≠ Some c).
Proof.
  induction s as [|d s (IH1 & IH2 & IH3)]; simpl.
  - split; [lia|]. split; [intros _; apply not_elem_of_nil|done].
  - unfold chars. simpl. fold (chars s). case_decide as Hd.
    + subst d. split; [lia|]. split; [done|]. intros _. split; [done|].
      intros j Hj. simpl in Hj. lia.
    + destruct (Z.eqb_spec (Py.find c s) (-1)) as [He|He].
      * split; [lia|]. split; [|done]. intros _.
        rewrite not_elem_of_cons. split; [done|]. by apply IH2.
      * split; [lia|]. split; [lia|]. intros _.
        destruct (IH3 He) as [Hl Hb].
        replace (Z.to_nat (Py.find c s + 1)) with (S (Z.to_nat (Py.find c s)))
          by lia.
        split; [done|]. intros [|j] Hj; simpl.
        -- congruence.
        -- apply Hb. lia.
Qed.

Lemma rfind_last (c : ascii) (s : string) :
  -1 ≤ Py.rfind c s
  ∧ (Py.rfind c s = -1 → c ∉ chars s)
  ∧ (Py.rfind c s ≠ -1 →
     chars s !! Z.to_nat (Py.rfind c s) = Some c
     ∧ ∀ j, (Z.to_nat (Py.rfind c s) < j)%nat → chars s !! j ≠ Some c).
Proof.
  induction s as [|d s (IH1 & IH2 & IH3)]; simpl.
  - split; [lia|]. split; [intros _; apply not_elem_of_nil|done].
  - unfold chars. simpl. fold (chars s).
    destruct (Z.eqb_spec (Py.rfind c s) (-1)) as [He|He].
    + case_decide as Hd.
      * subst d. split; [lia|]. split; [done|]. intros _. split; [done|].
        intros [|j] Hj; [simpl in Hj; lia|]. simpl.
        intros Hj'%list_elem_of_lookup_2. by apply IH2.
      * split; [lia|]. split; [|done]. intros _.
        rewrite not_elem_of_cons. split; [done|]. by apply IH2.
    + split; [lia|]. split; [lia|]. intros _.
      destruct (IH3 He) as [Hl Hb].
      replace (Z.to_nat (Py.rfind c s + 1))
        with (S (Z.to_nat (Py.rfind c s))) by lia.
      split; [done|]. intros [|j] Hj; [lia|]. simpl. apply Hb. lia.
Qed.

Lemma substring_chars (n m : nat) (s : string) :
  chars (String.substring n m s) = take m (drop n (chars s)).
Proof.
  revert n m. induction s as [|c s IH]; intros [|n] [|m]; try done.
  - unfold chars. simpl. f_equal. apply (IH 0%nat m).
  - apply (IH n 0%nat).
  - apply (IH n (S m)).
Qed.

Lemma slice_chars (a b : Z) (s : string) :
  chars (Py.slice a b s) = take (Z.to_nat (b - a)) (drop (Z.to_nat a) (chars s)).
Proof. apply substring_chars. Qed.

Lemma themes_of_empty_object (keywords locations : list string) :
  themes_of_parsed (JObj []) keywords locations
  = Ok {[ "product" := PMaxTheme.mk (uniq keywords) 0;
          "usecase" := PMaxTheme.mk [] 0;
          "demographic" := PMaxTheme.mk locations 0;
          "seasonal" := PMaxTheme.mk [] 0 ]}.
Proof. by rewrite (themes_of_parsed_dict [] keywords locations) by constructor. Qed.

(** C6.  [parse_llm_json] returns a value on every text (the failures
    of [json.loads] are absorbed), in stages: the empty text gives the
    empty object; otherwise the stripped text is parsed and, if that
    succeeds, its value is the result; otherwise, when a ["{"] occurs
    and the last ["}"] lies after the first ["{"], the text from the
    one to the other is parsed and, if that succeeds, its value is the
    result; in every other case the result is the empty object.  On
    the empty object the synthesis goes on with no source theme:
    product = the de-duplicated keywords, usecase and seasonal empty,
    demographic = the locations, which is not the fallback as soon as
    there is a location. *)
Theorem json_recovery_stages (loads : string → option json) (text : string) :
  let stripped := Py.strip text in
  let start := Py.find "{" stripped in
  let end_ := Py.rfind "}" stripped in
  let braces := Py.slice start (end_ + 1) stripped in
  let found := start ≠ -1 ∧ end_ ≠ -1 ∧ start < end_ in
  (text = "" → parse_llm_json loads text = JObj [])
  ∧ (text ≠ "" → ∀ v, loads stripped = Some v →
       parse_llm_json loads text = v)
  ∧ (text ≠ "" → loads stripped = None → found →
       ∀ v, loads braces = Some v → parse_llm_json loads text = v)
  ∧ (text ≠ "" → loads stripped = None →
       ¬ found ∨ loads braces = None →
       parse_llm_json loads text = JObj [])
  ∧ (found →
       chars braces
       = take (Z.to_nat (end_ - start) + 1) (drop (Z.to_nat start) (chars stripped))
       ∧ chars stripped !! Z.to_nat start = Some "{"%char
       ∧ (∀ j, (j < Z.to_nat start)%nat → chars stripped !! j ≠ Some "{"%char)
       ∧ chars stripped !! Z.to_nat end_ = Some "}"%char
       ∧ (∀ j, (Z.to_nat end_ < j)%nat → chars stripped !! j ≠ Some "}"%char))
  ∧ (∀ env generate_content keywords locations,
       model env = Some generate_content →
       generate_content keywords = Some text →
       parse_llm_json (json_loads env) text = JObj [] →
       generate_pmax_themes_llm env keywords locations
       = Ok {[ "product" := PMaxTheme.mk (uniq keywords) 0;
               "usecase" := PMaxTheme.mk [] 0;
               "demographic" := PMaxTheme.mk locations 0;
               "seasonal" := PMaxTheme.mk [] 0 ]})
  ∧ (∀ keywords locations, locations ≠ [] →
       themes_of_parsed (JObj []) keywords locations
       ≠ Ok (fallback keywords locations)).
Proof.
  intros stripped start end_ braces found.
  assert (Hcond : negb (start =? -1) && negb (end_ =? -1) && (start <? end_)
                  = bool_decide found).
  { unfold found. destruct (Z.eqb_spec start (-1)), (Z.eqb_spec end_ (-1)),
      (Z.ltb_spec start end_); simpl; symmetry;
      first [apply bool_decide_eq_true; lia|apply bool_decide_eq_false; lia]. }
  assert (Hparse : text ≠ "" →
            parse_llm_json loads text
            = match loads stripped with
              | Some v => v
              | None =>
                  if bool_decide found then
                    match loads braces with
                    | Some v => v
                    | None => JObj []
                    end
                  else JObj []
              end).
  { intros Hne. unfold parse_llm_json, Py.truthy.
    rewrite bool_decide_true by done. simpl negb. cbv iota.
    fold stripped. fold start. fold end_. fold braces. by rewrite Hcond. }
  split; [by intros ->|]. split.
  { intros Hne v Hv. by rewrite Hparse, Hv. }
  split.
  { intros Hne Hs Hf v Hv. by rewrite Hparse, Hs, bool_decide_true, Hv. }
  split.
  { intros Hne Hs [Hf|Hb]; rewrite Hparse, Hs by done.
    - by rewrite bool_decide_false.
    - rewrite Hb. by case_bool_decide. }
  split.
  { intros (Hs & He & Hlt).
    destruct (find_first "{" stripped) as (Hs1 & _ & Hs3).
    destruct (rfind_last "}" stripped) as (He1 & _ & He3).
    fold start in Hs1, Hs3. fold end_ in He1, He3.
    destruct (Hs3 Hs) as [? ?]. destruct (He3 He) as [? ?].
    split; [|done]. unfold braces. rewrite slice_chars. f_equal. lia. }
  split.
  { intros env g keywords locations Hm Hg Hp.
    rewrite (generate_pmax_themes_llm_response env keywords locations g text
               Hm Hg), Hp.
    apply themes_of_empty_object. }
  intros keywords locations Hl. rewrite themes_of_empty_object.
  intros H.
  apply (f_equal (λ r, match r with
                       | Ok m => PMaxTheme.keywords <$> m !! "seasonal"
                       | Raise _ => None
                       end)) in H.
  unfold fallback in H. cbn in H.
  destruct locations; [done|]. discriminate H.
Qed.

Lemma json_recovery_stages_witness :
  let loads := stub_json_loads [("{}", JObj [])] in
  loads (Py.strip "Sure, here it is: {} Enjoy!") = None
  ∧ (Py.find "{" (Py.strip "Sure, here it is: {} Enjoy!") = 18
     ∧ Py.rfind "}" (Py.strip "Sure, here it is: {} Enjoy!") = 19)
  ∧ parse_llm_json loads "Sure, here it is: {} Enjoy!" = JObj [].
Proof.
  intros loads.
  assert (Hs : loads (Py.strip "Sure, here it is: {} Enjoy!") = None)
    by by vm_compute.
  split; [exact Hs|]. split; [by vm_compute|].
  apply (proj1 (proj2 (proj2 (json_recovery_stages loads
                                "Sure, here it is: {} Enjoy!")))
           ltac:(done) Hs); by vm_compute.
Defined.

(** ** Outcomes outside the well-typed responses *)

(** A response that parses to something other than an object has no
    [get]: the synthesis raises. *)
Example themes_of_non_object (keywords locations : list string) :
  themes_of_parsed (JArr []) keywords locations = Raise AttributeError
  ∧ themes_of_parsed JNull keywords locations = Raise AttributeError.
Proof. by split. Qed.

(** A theme whose name is not a string has no [lower]. *)
Example theme_name_not_a_string :
  reclassify no_buckets [JObj [("name", JNull); ("keywords", JArr [])]]
  = Raise AttributeError.
Proof. reflexivity. Qed.

(** A range of two [nan] parses, and its suggestion is [nan]. *)
Example nan_midpoint_nan_bid :
  suggested_of (Py.Fin 1) (KeywordFull.mk "whey" (Some 900) None (Some "nan - nan"))
  = Py.NaN.
Proof. by vm_compute. Qed.

(** A range without dollar signs parses as well. *)
Example range_without_dollars :
  parse_cpc_range "1.00 - 2.00" = Some (Py.Fin (30000 # 20000)).
Proof. by vm_compute. Qed.

(** A third part, as a negative bound gives, does not parse. *)
Example range_with_negative_bound : parse_cpc_range "$-1.00 - $2.00" = None.
Proof. by vm_compute. Qed.

(** * Further properties of the code *)

(** ** Counts and volumes of a plan *)






Lemma keyword_objects_volume (keywords_data : list KeywordData.t)
    (k : KeywordFull.t) :
  k ∈ keyword_objects keywords_data →
  ∃ v, KeywordFull.search_volume k = Some v ∧ 500 ≤ v.
Proof.
  intros (kw & -> & [_ Hkw]%elem_of_bool_filter)%list_elem_of_fmap.
  by apply volume_ok_spec in Hkw.
Qed.

Lemma group_lists_partition (brand_key competitor_key target_locations : string)
    (kws : list KeywordFull.t) :
  kws ≡ₚ concat (group_list
                   (search_groups brand_key competitor_key target_locations kws)
                 <$> all_groups).
Proof.
  unfold all_groups. rewrite !fmap_cons, fmap_nil. unfold group_list.
  rewrite !search_groups_lookup. simpl. rewrite app_nil_r.
  apply members_of_partition.
Qed.

Lemma Zsum_app (l1 l2 : list Z) : Zsum (l1 ++ l2) = Zsum l1 + Zsum l2.
Proof. induction l1 as [|a l1 IH]; simpl; [done|]. rewrite IH. lia. Qed.

Lemma length_concat_Zsum {A} (ls : list (list A)) :
  Z.of_nat (length (concat ls)) = Zsum ((λ l, Z.of_nat (length l)) <$> ls).
Proof.
  induction ls as [|l ls IH]; [done|].
  csimpl. rewrite length_app, Nat2Z.inj_add, IH. done.
Qed.


(** X1.  In every returned plan [total_keywords] is the number of
    input records whose volume is at least 500; it is also the number
    of bid suggestions and the sum of the sizes of the five ad groups;
    the suggestions list the surviving keywords in input order, each
    with its volume of at least 500 and a suggested CPC present. *)
Theorem plan_keyword_counts (env : Env) (inputs : SEMInputs.t)
    (out : SEMOutput.t) :
  generate_sem_plan env inputs = Ok out →
  ∃ keywords_data,
    get_keywords_from_google env (SEMInputs.themes inputs)
      (page_url_of inputs) = Some keywords_data
    ∧ SEMOutput.total_keywords out
      = Z.of_nat (length (List.filter volume_ok keywords_data))
    ∧ SEMOutput.total_keywords out
      = Z.of_nat (length (SEMOutput.shoppingCPC out))
    ∧ SEMOutput.total_keywords out
      = Zsum ((λ g, Z.of_nat
                      (length (group_list (SEMOutput.searchAdGroups out) g)))
              <$> all_groups)
    ∧ ShoppingCPCSuggestion.keyword <$> SEMOutput.shoppingCPC out
      = KeywordData.keyword <$> List.filter volume_ok keywords_data
    ∧ (∀ s, s ∈ SEMOutput.shoppingCPC out →
         (∃ v, ShoppingCPCSuggestion.search_volume s = Some v ∧ 500 ≤ v)
         ∧ is_Some (ShoppingCPCSuggestion.suggested_cpc s)).
Proof.
  intros (data & pm & ths & Hd & _ & _ & ->)%generate_sem_plan_Ok.
  exists data. split; [done|]. simpl.
  assert (Hlen : length (keyword_objects data)
                 = length (List.filter volume_ok data)).
  { unfold keyword_objects. by rewrite length_fmap. }
  split; [by rewrite Hlen|]. split; [by rewrite length_fmap|]. split.
  { pose proof (group_lists_partition
                  (clean_domain (SEMInputs.brand_website inputs))
                  (clean_domain
                     (default "" (SEMInputs.competitor_website inputs)))
                  (SEMInputs.target_locations inputs) (keyword_objects data))
      as Hp.
    apply Permutation_length in Hp.
    rewrite Hp, length_concat_Zsum. by rewrite <- list_fmap_compose. }
  split.
  { unfold keyword_objects. by rewrite <- !list_fmap_compose. }
  intros s (k & -> & Hk)%list_elem_of_fmap. split; [|by eexists].
  simpl. by eapply keyword_objects_volume.
Qed.

Lemma plan_keyword_counts_witness :
  ∃ out, generate_sem_plan sample_env (sample_inputs 100 200 300) = Ok out
         ∧ SEMOutput.total_keywords out = 1.
Proof.
  eexists. split; [reflexivity|].
  destruct (plan_keyword_counts sample_env (sample_inputs 100 200 300) _
              eq_refl) as (data & Hd & Hn & _).
  rewrite Hn. injection Hd as <-. by vm_compute.
Defined.



(** ** Outcomes of the theme synthesis *)

Lemma theme_name_raise (t : json) (e : exn) :
  theme_name t = Raise e → e = AttributeError.
Proof. unfold theme_name. repeat case_match; by intros [= <-]. Qed.

Lemma reclassify_outcome (ts : list json) (bs : buckets) :
  match reclassify bs ts with
  | Ok _ => Forall (λ t, ∃ name, theme_name t = Ok name) ts
  | Raise e => e = AttributeError
  end.
Proof.
  revert bs. induction ts as [|t ts IH]; intros bs; [constructor|].
  change (reclassify bs (t :: ts))
    with (theme_name t ≫= λ name,
            reclassify (extend (bucket_of_name name) (theme_kws t) bs) ts).
  destruct (theme_name t) as [name|e] eqn:Hn; cbn.
  - specialize (IH (extend (bucket_of_name name) (theme_kws t) bs)).
    destruct (reclassify _ ts); [|done].
    constructor; [by exists name|done].
  - by eapply theme_name_raise.
Qed.

Lemma uniq_bucket_outcome (b : list json) :
  match uniq_bucket b with
  | Ok kws => Forall (λ v, is_Some (as_str v)) b ∧ kws = uniq (omap as_str b)
  | Raise e => e = TypeError ∨ e = ValidationError
  end.
Proof.
  unfold uniq_bucket. destruct (forallb hashable b); [|by left].
  destruct (mapM as_str b) as [kws|] eqn:Hm; [|by right].
  apply mapM_Some in Hm.
  assert (Hb : Forall (λ v, is_Some (as_str v)) b ∧ kws = omap as_str b).
  { induction Hm as [|v s b kws Hv _ [IH1 IH2]]; [by split|].
    split; [constructor; [by eexists|done]|]. csimpl. rewrite Hv. simpl.
    by f_equal. }
  destruct Hb as [Hb ->]. by split.
Qed.

Lemma Forall_concat_fmap {A B} (P : B → Prop) (f : A → list B) (l : list A)
    (x : A) :
  Forall P (concat (f <$> l)) → x ∈ l → Forall P (f x).
Proof.
  induction l as [|a l IH]; csimpl; intros H Hx; [by apply elem_of_nil in Hx|].
  apply Forall_app in H as [Ha Hl].
  apply elem_of_cons in Hx as [->|Hx]; [done|by apply IH].
Qed.

Lemma themes_of_parsed_outcome (parsed : json)
    (keywords locations : list string) :
  match themes_of_parsed parsed keywords locations with
  | Ok _ =>
      ∃ members,
        parsed = JObj members ∧ Forall well_typed_theme (source_themes members)
  | Raise e => e = AttributeError ∨ e = TypeError ∨ e = ValidationError
  end.
Proof.
  destruct parsed as [| | | | |members]; try by left.
  unfold themes_of_parsed.
  destruct (themes_list_of_dict members) as (v & -> & Hv). cbn. rewrite Hv.
  pose proof (reclassify_outcome (source_themes members) no_buckets) as Hn.
  destruct (reclassify no_buckets (source_themes members)) as [bs|e] eqn:Hr;
    cbn; [|by left].
  rewrite reclassify_buckets in Hr by done. injection Hr as <-. simpl.
  pose proof (uniq_bucket_outcome
                (bucket_values Product (source_themes members))) as H1.
  destruct (uniq_bucket (bucket_values Product _)); cbn; [|tauto].
  pose proof (uniq_bucket_outcome
                (bucket_values Usecase (source_themes members))) as H2.
  destruct (uniq_bucket (bucket_values Usecase _)); cbn; [|tauto].
  pose proof (uniq_bucket_outcome
                (bucket_values Demographic (source_themes members))) as H3.
  destruct (uniq_bucket (bucket_values Demographic _)); cbn; [|tauto].
  pose proof (uniq_bucket_outcome
                (bucket_values Seasonal (source_themes members))) as H4.
  destruct (uniq_bucket (bucket_values Seasonal _)); cbn; [|tauto].
  exists members. split; [done|].
  assert (Hall : Forall (λ v, is_Some (as_str v))
                   (concat (theme_kws <$> source_themes members))).
  { rewrite bucket_values_partition. rewrite !Forall_app. tauto. }
  rewrite Forall_forall in Hn.
  apply Forall_forall. intros t Ht. split.
  - by apply Hn.
  - by apply (Forall_concat_fmap _ theme_kws (source_themes members)).
Qed.

Lemma generate_pmax_themes_llm_raise (env : Env)
    (keywords locations : list string) (e : exn) :
  generate_pmax_themes_llm env keywords locations = Raise e →
  e = AttributeError ∨ e = TypeError ∨ e = ValidationError.
Proof.
  unfold generate_pmax_themes_llm.
  destruct (model env) as [g|]; [|done].
  destruct (g keywords) as [text|]; [|done].
  intros H.
  pose proof (themes_of_parsed_outcome
                (parse_llm_json (json_loads env) text) keywords locations) as Ho.
  by rewrite H in Ho.
Qed.

(** X3.  The theme synthesis on a parsed response returns a result
    exactly when the response is an object whose themes are well typed
    (every name present is a string, every keyword entry is a string);
    in every other case it raises [AttributeError], [TypeError] or
    [ValidationError], and [AttributeError] in particular when the
    response is not an object. *)
Theorem theme_synthesis_succeeds_iff (parsed : json)
    (keywords locations : list string) :
  ((∃ themes, themes_of_parsed parsed keywords locations = Ok themes) ↔
   ∃ members,
     parsed = JObj members ∧ Forall well_typed_theme (source_themes members))
  ∧ (∀ e, themes_of_parsed parsed keywords locations = Raise e →
       e = AttributeError ∨ e = TypeError ∨ e = ValidationError)
  ∧ ((∀ members, parsed ≠ JObj members) →
     themes_of_parsed parsed keywords locations = Raise AttributeError).
Proof.
  pose proof (themes_of_parsed_outcome parsed keywords locations) as Ho.
  split; [split|split].
  - intros [themes H]. by rewrite H in Ho.
  - intros (members & -> & Hts). eexists.
    by apply themes_of_parsed_dict.
  - intros e H. by rewrite H in Ho.
  - intros Hn. destruct parsed; try done. by destruct (Hn members).
Qed.

(** X4.  [generate_sem_plan] answers HTTP 500 exactly when the
    keyword fetch raises, and then whatever the other inputs are; when
    the fetch succeeds an exception of the theme synthesis passes
    through unchanged and is an [AttributeError], a [TypeError] or a
    [ValidationError]; when the synthesis has returned, the plan raises
    [OverflowError] if the total budget or the total volume does not
    convert to a float for the target CPC, whatever the seed themes
    are; and otherwise seed themes that are [None] make the plan fail
    with [ValidationError] even though everything else succeeded. *)
Theorem plan_error_outcomes (env : Env) (inputs : SEMInputs.t) :
  let fetched :=
    get_keywords_from_google env (SEMInputs.themes inputs) (page_url_of inputs)
  in
  let total_budget := total_budget_of (SEMInputs.budget_allocations inputs) in
  (fetched = None → generate_sem_plan env inputs = Raise (HTTPException 500))
  ∧ (∀ status_code,
       generate_sem_plan env inputs = Raise (HTTPException status_code) →
       fetched = None ∧ status_code = 500)
  ∧ (∀ keywords_data e,
       fetched = Some keywords_data →
       generate_pmax_themes_llm env
         (KeywordFull.keyword <$> keyword_objects keywords_data)
         (locations_list (SEMInputs.target_locations inputs)) = Raise e →
       generate_sem_plan env inputs = Raise e
       ∧ (e = AttributeError ∨ e = TypeError ∨ e = ValidationError))
  ∧ (∀ keywords_data pmax_map,
       fetched = Some keywords_data →
       generate_pmax_themes_llm env
         (KeywordFull.keyword <$> keyword_objects keywords_data)
         (locations_list (SEMInputs.target_locations inputs)) = Ok pmax_map →
       (target_cpc_converts total_budget
          (sum_volume (keyword_objects keywords_data)) = false →
        generate_sem_plan env inputs = Raise OverflowError)
       ∧ (target_cpc_converts total_budget
            (sum_volume (keyword_objects keywords_data)) = true →
          SEMInputs.themes inputs = None →
          generate_sem_plan env inputs = Raise ValidationError))
  ∧ (generate_sem_plan env inputs = Raise OverflowError →
     ∃ keywords_data,
       fetched = Some keywords_data
       ∧ keyword_objects keywords_data ≠ []
       ∧ (2 ^ 1024 - 2 ^ 970 ≤ Z.abs total_budget
          ∨ 2 ^ 1024 - 2 ^ 970
            ≤ sum_volume (keyword_objects keywords_data))).
Proof.
  intros fetched total_budget. rewrite generate_sem_plan_cases. cbv zeta.
  fold fetched. fold total_budget.
  split; [by intros ->|]. split.
  { intros c. destruct fetched as [data|]; [|by intros [= <-]].
    destruct (generate_pmax_themes_llm _ _ _) as [pm|e] eqn:Hpm.
    - destruct (target_cpc_converts _ _); [|done].
      by destruct (SEMInputs.themes inputs).
    - intros [= ->]. apply generate_pmax_themes_llm_raise in Hpm.
      by destruct Hpm as [?|[?|?]]. }
  split.
  { intros data e -> Hpm. rewrite Hpm. split; [done|].
    by eapply generate_pmax_themes_llm_raise. }
  split.
  { intros data pm -> Hpm. rewrite Hpm. split.
    - by intros ->.
    - by intros -> ->. }
  destruct fetched as [data|]; [|done].
  destruct (generate_pmax_themes_llm _ _ _) as [pm|e] eqn:Hpm.
  - destruct (target_cpc_converts _ _) eqn:Hc.
    + by destruct (SEMInputs.themes inputs).
    + intros _. exists data. split; [done|].
      assert (Hn : ¬ (sum_volume (keyword_objects data) ≤ 0
                      ∨ (Z.abs total_budget < 2 ^ 1024 - 2 ^ 970
                         ∧ sum_volume (keyword_objects data)
                           < 2 ^ 1024 - 2 ^ 970))).
      { rewrite <- target_cpc_converts_spec. by rewrite Hc. }
      split; [|lia].
      intros He. apply Hn. left. by rewrite He.
  - intros [= ->]. apply generate_pmax_themes_llm_raise in Hpm.
    by destruct Hpm as [?|[?|?]].
Qed.

(** ** Shape of the returned themes *)

Lemma uniq_nonempty (l : list string) : l ≠ [] → uniq l ≠ [].
Proof.
  destruct l as [|x l]; [done|]. intros _ H.
  assert (Hx : x ∈ uniq (x :: l)).
  { apply (proj1 (proj2 (uniq_first_seen (x :: l)))). by left. }
  rewrite H in Hx. by apply elem_of_nil in Hx.
Qed.

Lemma or_list_nonempty {A} (x y : list A) : y ≠ [] → or_list x y ≠ [].
Proof. by destruct x. Qed.

Lemma themes_of_parsed_shape (parsed : json) (keywords locations : list string)
    (themes : gmap string PMaxTheme.t) :
  themes_of_parsed parsed keywords locations = Ok themes →
  ∃ product usecase demographic seasonal,
    themes
    = {[ "product" := PMaxTheme.mk (or_list product (uniq keywords)) 0;
         "usecase" := PMaxTheme.mk usecase 0;
         "demographic" := PMaxTheme.mk (or_list demographic locations) 0;
         "seasonal" := PMaxTheme.mk seasonal 0 ]}
    ∧ NoDup product ∧ NoDup usecase ∧ NoDup demographic ∧ NoDup seasonal.
Proof.
  unfold themes_of_parsed.
  destruct (themes_list_of parsed) as [v|]; cbn; [|done].
  destruct (match v with JArr ts => reclassify no_buckets ts | _ => Ok no_buckets end)
    as [bs|]; cbn; [|done].
  pose proof (uniq_bucket_outcome (product_keywords bs)) as H1.
  destruct (uniq_bucket (product_keywords bs)) as [p|]; cbn; [|done].
  pose proof (uniq_bucket_outcome (usecase_long bs)) as H2.
  destruct (uniq_bucket (usecase_long bs)) as [u|]; cbn; [|done].
  pose proof (uniq_bucket_outcome (demographic_keywords bs)) as H3.
  destruct (uniq_bucket (demographic_keywords bs)) as [d|]; cbn; [|done].
  pose proof (uniq_bucket_outcome (seasonal_keywords bs)) as H4.
  destruct (uniq_bucket (seasonal_keywords bs)) as [s|]; cbn; [|done].
  intros [= <-]. exists p, u, d, s. split; [done|].
  destruct H1 as [_ ->], H2 as [_ ->], H3 as [_ ->], H4 as [_ ->].
  repeat split; apply uniq_go_NoDup.
Qed.

Lemma four_theme_lookup (a b c d t : PMaxTheme.t) (k : string) :
  ({[ "product" := a; "usecase" := b; "demographic" := c; "seasonal" := d ]}
   : gmap string PMaxTheme.t) !! k = Some t →
  t = a ∨ t = b ∨ t = c ∨ t = d.
Proof.
  intros Hk.
  apply lookup_insert_Some in Hk as [[_ <-]|[_ Hk]]; [tauto|].
  apply lookup_insert_Some in Hk as [[_ <-]|[_ Hk]]; [tauto|].
  apply lookup_insert_Some in Hk as [[_ <-]|[_ Hk]]; [tauto|].
  apply lookup_singleton_Some in Hk as [_ <-]. tauto.
Qed.

(** X5.  Whatever the collaborator does, a theme dict that
    [generate_pmax_themes_llm] returns has exactly the keys product,
    usecase, demographic and seasonal, every [total_volume] in it is 0,
    its product theme is not empty when there is a keyword, and its
    demographic theme is not empty when there is a location. *)
Theorem theme_dict_shape (env : Env) (keywords locations : list string)
    (themes : gmap string PMaxTheme.t) :
  generate_pmax_themes_llm env keywords locations = Ok themes →
  dom themes = {[ "product"; "usecase"; "demographic"; "seasonal" ]}
  ∧ (∀ k t, themes !! k = Some t → PMaxTheme.total_volume t = 0)
  ∧ (∃ t, themes !! "product" = Some t
          ∧ (keywords ≠ [] → PMaxTheme.keywords t ≠ []))
  ∧ (∃ t, themes !! "demographic" = Some t
          ∧ (locations ≠ [] → PMaxTheme.keywords t ≠ [])).
Proof.
  intros H.
  assert (Hs : ∃ p u d s,
            themes = {[ "product" := PMaxTheme.mk p 0;
                        "usecase" := PMaxTheme.mk u 0;
                        "demographic" := PMaxTheme.mk d 0;
                        "seasonal" := PMaxTheme.mk s 0 ]}
            ∧ (keywords ≠ [] → p ≠ []) ∧ (locations ≠ [] → d ≠ [])).
  { unfold generate_pmax_themes_llm in H.
    assert (Hf : ∀ m, Ok (fallback keywords locations) = Ok m →
              ∃ p u d s,
                m = {[ "product" := PMaxTheme.mk p 0;
                       "usecase" := PMaxTheme.mk u 0;
                       "demographic" := PMaxTheme.mk d 0;
                       "seasonal" := PMaxTheme.mk s 0 ]}
                ∧ (keywords ≠ [] → p ≠ []) ∧ (locations ≠ [] → d ≠ [])).
    { intros m [= <-]. by eexists _, _, _, _. }
    destruct (model env) as [g|]; [|by apply Hf].
    destruct (g keywords) as [text|]; [|by apply Hf].
    apply themes_of_parsed_shape in H as (p & u & d & s & -> & _).
    eexists _, _, _, _. split; [done|]. split.
    - intros Hk. by apply or_list_nonempty, uniq_nonempty.
    - intros Hl. by apply or_list_nonempty. }
  destruct Hs as (p & u & d & s & -> & Hp & Hd).
  split.
  { rewrite !dom_insert_L, dom_singleton_L. set_solver. }
  split.
  { intros k t Hk. apply four_theme_lookup in Hk.
    by destruct Hk as [->|[->|[->| ->]]]. }
  split; by eexists.
Qed.

Lemma theme_dict_shape_witness :
  ∃ themes,
    generate_pmax_themes_llm
      (llm_env "seasonal-only response"
         [("seasonal-only response", seasonal_only)])
      ["whey protein"] [] = Ok themes
    ∧ dom themes = {[ "product"; "usecase"; "demographic"; "seasonal" ]}.
Proof.
  eexists. split; [by vm_compute|].
  eapply (proj1 (theme_dict_shape
                   (llm_env "seasonal-only response"
                      [("seasonal-only response", seasonal_only)])
                   ["whey protein"] [] _ _)).
  Unshelve. by vm_compute.
Defined.

(** ** More on [uniq] *)

Lemma uniq_go_sublist (seen : gset string) (l : list string) :
  sublist (uniq_go seen l) l.
Proof.
  revert seen. induction l as [|a l IH]; intros seen; simpl; [constructor|].
  case_decide; by constructor.
Qed.

Lemma uniq_go_NoDup_fix (seen : gset string) (l : list string) :
  NoDup l → (∀ x, x ∈ l → x ∉ seen) → uniq_go seen l = l.
Proof.
  intros Hl. revert seen.
  induction Hl as [|a l Ha _ IH]; intros seen Hs; simpl; [done|].
  rewrite decide_False by (apply Hs; by left). f_equal.
  apply IH. intros x Hx. rewrite elem_of_union, elem_of_singleton.
  intros [->|Hx']; [done|]. by apply (Hs x); [right|].
Qed.

(** X6.  [uniq] returns a duplicate-free subsequence of its input
    with the same elements; it leaves a list unchanged exactly when the
    list has no duplicate, so applying it twice changes nothing more. *)
Theorem uniq_idempotent (seq : list string) :
  sublist (uniq seq) seq
  ∧ NoDup (uniq seq)
  ∧ (∀ x, x ∈ uniq seq ↔ x ∈ seq)
  ∧ (length (uniq seq) ≤ length seq)%nat
  ∧ (uniq seq = seq ↔ NoDup seq)
  ∧ uniq (uniq seq) = uniq seq.
Proof.
  assert (Hfix : ∀ l, NoDup l → uniq l = l).
  { intros l Hl. apply uniq_go_NoDup_fix; [done|].
    intros x _. apply not_elem_of_empty. }
  split; [apply uniq_go_sublist|].
  split; [apply uniq_go_NoDup|].
  split; [apply uniq_first_seen|]. split.
  { apply sublist_length, uniq_go_sublist. }
  split.
  - split; [|apply Hfix]. intros <-. apply uniq_go_NoDup.
  - apply Hfix, uniq_go_NoDup.
Qed.

(** ** More on the root-domain token *)

Lemma lower_char_idem (c : ascii) :
  Py.lower_char (Py.lower_char c) = Py.lower_char c.
Proof. destruct c as [[] [] [] [] [] [] [] []]; by vm_compute. Qed.

Lemma lower_char_dot (c : ascii) : Py.lower_char c = "."%char → c = "."%char.
Proof. destruct c as [[] [] [] [] [] [] [] []]; by vm_compute. Qed.

Lemma lower_idem (s : string) : Py.lower (Py.lower s) = Py.lower s.
Proof.
  induction s as [|c s IH]; [done|]. simpl. by rewrite lower_char_idem, IH.
Qed.

Lemma lower_before_dot_no_dot (s : string) :
  "."%char ∉ chars (Py.lower (before_dot s)).
Proof.
  induction s as [|c s IH]; simpl; [apply not_elem_of_nil|].
  case_decide as Hc; [apply not_elem_of_nil|].
  unfold chars. simpl. apply not_elem_of_cons. split; [|done].
  intros H. symmetry in H. by apply lower_char_dot in H.
Qed.

Lemma re_sub_scheme_https (u : string) :
  Py.re_sub_scheme ("https://" +:+ u) = Py.re_sub_scheme u.
Proof.
  unfold Py.re_sub_scheme, String.append. rewrite remove_go_head.
  unfold Py.match_scheme at 1. simpl String.prefix. by rewrite prefix_empty.
Qed.

Lemma re_sub_scheme_http (u : string) :
  Py.re_sub_scheme ("http://" +:+ u) = Py.re_sub_scheme u.
Proof.
  unfold Py.re_sub_scheme, String.append. rewrite remove_go_head.
  unfold Py.match_scheme at 1. simpl String.prefix. by rewrite prefix_empty.
Qed.

Lemma re_sub_scheme_www (u : string) :
  Py.re_sub_scheme ("www." +:+ u)
  = String "w" (String "w" (String "w" (String "." (Py.re_sub_scheme u)))).
Proof. done. Qed.

(** X7.  The token [clean_domain] returns never contains a dot and is
    lower-cased (lower-casing it again changes nothing); a leading
    [https://], [http://] or [www.] in front of a URL never changes its
    token. *)
Theorem clean_domain_token (url : string) :
  ("."%char ∉ chars (clean_domain url))
  ∧ Py.lower (clean_domain url) = clean_domain url
  ∧ clean_domain ("https://" +:+ url) = clean_domain url
  ∧ clean_domain ("http://" +:+ url) = clean_domain url
  ∧ clean_domain ("www." +:+ url) = clean_domain url
  ∧ clean_domain ("https://www." +:+ url) = clean_domain url.
Proof.
  rewrite !clean_domain_unfold.
  split; [apply lower_before_dot_no_dot|]. split; [apply lower_idem|].
  split; [by rewrite re_sub_scheme_https|].
  split; [by rewrite re_sub_scheme_http|].
  assert (Hw : Py.lower (before_dot (Py.remove_all "www."
                  (Py.re_sub_scheme ("www." +:+ url))))
               = Py.lower (before_dot (Py.remove_all "www."
                    (Py.re_sub_scheme url)))).
  { by rewrite re_sub_scheme_www, remove_all_www_head. }
  split; [done|].
  change ("https://www." +:+ url) with ("https://" +:+ "www." +:+ url).
  by rewrite re_sub_scheme_https.
Qed.

(** ** The location list *)

Lemma lstrip_head (s : string) :
  Py.lstrip s = ""
  ∨ ∃ c t, Py.lstrip s = String c t ∧ Py.is_space c = false.
Proof.
  induction s as [|c s IH]; [by left|]. simpl.
  destruct (Py.is_space c) eqn:Hc; [done|]. right. by exists c, s.
Qed.

Lemma lstrip_idem (s : string) : Py.lstrip (Py.lstrip s) = Py.lstrip s.
Proof.
  destruct (lstrip_head s) as [->|(c & t & -> & Hc)]; [done|].
  simpl. by rewrite Hc.
Qed.

Lemma rstrip_idem (s : string) : Py.rstrip (Py.rstrip s) = Py.rstrip s.
Proof. unfold Py.rstrip. by rewrite rev_rev, lstrip_idem. Qed.

Lemma rev_app_acc (t acc : string) :
  String.rev_app t acc = String.rev t +:+ acc.
Proof.
  unfold String.rev. revert acc.
  induction t as [|a t IH]; intros acc; [done|]. simpl.
  rewrite (IH (String a acc)), (IH (String a "")).
  by rewrite append_assoc.
Qed.

Lemma lstrip_snoc (u : string) (c : ascii) :
  Py.is_space c = false →
  Py.lstrip (u +:+ String c "") = Py.lstrip u +:+ String c "".
Proof.
  intros Hc. induction u as [|a u IH].
  - simpl. change ("" +:+ String c "") with (String c ""). simpl.
    by rewrite Hc.
  - rewrite append_cons. simpl. destruct (Py.is_space a); [done|].
    by rewrite append_cons.
Qed.

Lemma rstrip_cons (c : ascii) (t : string) :
  Py.is_space c = false → Py.rstrip (String c t) = String c (Py.rstrip t).
Proof.
  intros Hc. unfold Py.rstrip.
  assert (Hr : String.rev (String c t) = String.rev t +:+ String c "").
  { unfold String.rev at 1. simpl. apply rev_app_acc. }
  rewrite Hr, lstrip_snoc by done.
  unfold String.rev at 1. by rewrite rev_app_append.
Qed.

Lemma strip_idem (s : string) : Py.strip (Py.strip s) = Py.strip s.
Proof.
  unfold Py.strip.
  destruct (lstrip_head s) as [->|(c & t & -> & Hc)]; [done|].
  rewrite rstrip_cons by done. simpl Py.lstrip at 1. rewrite Hc.
  by rewrite rstrip_cons, rstrip_idem.
Qed.

Lemma split_on_length (sep : ascii) (s : string) :
  length (Py.split_on sep s) = S (count_char sep s).
Proof.
  unfold count_char, chars. induction s as [|c s IH]; [done|]. simpl.
  case_decide as Hc.
  - rewrite bool_decide_true by done. simpl. by rewrite IH.
  - rewrite bool_decide_false by done.
    destruct (Py.split_on sep s); simpl in *; [done|]. by rewrite <- IH.
Qed.

(** X8.  The location list of a plan request is empty for the empty
    string; otherwise it has one entry more than the string has
    commas; and every entry is free of commas and of leading and
    trailing blanks (stripping it again changes nothing). *)
Theorem locations_list_entries (target_locations : string) :
  (target_locations = "" → locations_list target_locations = [])
  ∧ (target_locations ≠ "" →
     length (locations_list target_locations)
     = S (count_char "," target_locations))
  ∧ (∀ loc, loc ∈ locations_list target_locations →
       (","%char ∉ chars loc) ∧ Py.strip loc = loc).
Proof.
  unfold locations_list, Py.truthy. split; [by intros ->|]. split.
  - intros H. rewrite bool_decide_true by done.
    by rewrite length_fmap, split_on_length.
  - intros loc. case_bool_decide; [|by intros ?%elem_of_nil].
    intros (p & -> & Hp)%list_elem_of_fmap. split; [|apply strip_idem].
    intros Hc%strip_chars. by eapply split_on_no_sep.
Qed.

Lemma locations_list_entries_witness :
  length (locations_list " New Delhi ,Mumbai,, ") = 4%nat
  ∧ locations_list " New Delhi ,Mumbai,, " = ["New Delhi"; "Mumbai"; ""; ""].
Proof.
  split; [|by vm_compute].
  by rewrite (proj1 (proj2 (locations_list_entries " New Delhi ,Mumbai,, "))).
Defined.

(** ** Bounds on the average CPC *)

Lemma cpc_midpoints_not_negative (kws : list KeywordFull.t) :
  Forall not_negative (cpc_midpoints kws).
Proof.
  unfold cpc_midpoints. induction kws as [|k kws IH]; csimpl; [constructor|].
  destruct (cpc_midpoint k) as [m|] eqn:Hm; simpl; [|done].
  constructor; [by eapply cpc_midpoint_not_negative|done].
Qed.

Lemma foldl_add_not_negative (a : Py.float) (ms : list Py.float) :
  not_negative a → Forall not_negative ms → not_negative (foldl Py.add a ms).
Proof.
  intros Ha Hms. revert a Ha.
  induction Hms as [|m ms Hm _ IH]; intros a Ha; simpl; [done|].
  by apply IH, add_not_negative.
Qed.

Lemma avg_cpc_not_negative (kws : list KeywordFull.t) :
  not_negative (avg_cpc_of kws).
Proof.
  rewrite avg_cpc_of_unfold. case_decide as Hm; [done|].
  assert (Hs : not_negative (Py.sum (cpc_midpoints kws))).
  { apply foldl_add_not_negative; [done|apply cpc_midpoints_not_negative]. }
  assert (Hn : (0 < inject_Z (Z.of_nat (length (cpc_midpoints kws))))%Q).
  { change 0%Q with (inject_Z 0). rewrite <- Zlt_Qlt.
    destruct (cpc_midpoints kws); [done|]. simpl. lia. }
  destruct (Py.sum (cpc_midpoints kws)) as [q| | |]; simpl in *; try done.
  apply cents_nonneg, round_half_even_nonneg.
  apply Qmult_le_0_compat; [|done].
  apply Qle_shift_div_l; [done|]. lra.
Qed.

Lemma Qsum_bounds (qs : list Q) (lo hi : Q) :
  Forall (λ q, lo <= q ∧ q <= hi)%Q qs →
  (inject_Z (Z.of_nat (length qs)) * lo <= Qsum qs
   ∧ Qsum qs <= inject_Z (Z.of_nat (length qs)) * hi)%Q.
Proof.
  induction 1 as [|q qs [Hl Hh] _ [IH1 IH2]].
  - unfold Qsum. simpl. change (inject_Z (Z.of_nat 0)) with 0%Q. lra.
  - unfold Qsum in *. simpl foldr. simpl length.
    rewrite Nat2Z.inj_succ, <- Z.add_1_r, inject_Z_plus.
    change (inject_Z 1) with 1%Q.
    rewrite !Qmult_plus_distr_l, !Qmult_1_l. split; lra.
Qed.

Lemma Qmean_bounds (qs : list Q) (lo hi : Q) :
  qs ≠ [] → Forall (λ q, lo <= q ∧ q <= hi)%Q qs →
  (lo <= Qmean qs ∧ Qmean qs <= hi)%Q.
Proof.
  intros Hne Hqs. destruct (Qsum_bounds qs lo hi Hqs) as [H1 H2].
  assert (Hn : (0 < inject_Z (Z.of_nat (length qs)))%Q).
  { change 0%Q with (inject_Z 0). rewrite <- Zlt_Qlt.
    destruct qs; [done|]. simpl. lia. }
  unfold Qmean. split.
  - apply Qle_shift_div_l; [done|]. lra.
  - apply Qle_shift_div_r; [done|]. lra.
Qed.

(** X9.  The average CPC of a plan is never negative; and when the
    midpoints that parse are finite, lie between [lo] and [hi] and
    have a sum within the doubles, the average is a whole number of
    cents, not below [lo] rounded down to a cent and not above [hi]
    rounded up to a cent. *)
Theorem avg_cpc_bounds (kws : list KeywordFull.t) :
  not_negative (avg_cpc_of kws)
  ∧ (∀ qs lo hi,
       cpc_midpoints kws = Py.Fin <$> qs → qs ≠ [] →
       Forall (λ q, lo <= q ∧ q <= hi)%Q qs →
       (hi * inject_Z (Z.of_nat (length qs)) <= inject_Z (2 ^ 1022))%Q →
       ∃ k, avg_cpc_of kws = Py.Fin (k # 100)
            ∧ Qfloor (lo * 100) ≤ k ≤ Qceiling (hi * 100)).
Proof.
  split; [apply avg_cpc_not_negative|].
  intros qs lo hi Hm Hne Hqs _.
  rewrite (avg_cpc_of_mean kws qs Hm Hne).
  destruct (Qmean_bounds qs lo hi Hne Hqs) as [H1 H2].
  eexists. split; [reflexivity|]. split.
  - etransitivity; [|apply round_half_even_bounds].
    apply Qfloor_resp_le. lra.
  - etransitivity; [apply round_half_even_ceiling|].
    apply Qceiling_resp_le. lra.
Qed.

Lemma avg_cpc_bounds_witness :
  let kws :=
    [KeywordFull.mk "whey protein" (Some 1000) None (Some "$1.00 - $2.00");
     KeywordFull.mk "casein" (Some 700) None (Some "$2.00 - $4.00")] in
  ∃ k, avg_cpc_of kws = Py.Fin (k # 100) ∧ 150 ≤ k ≤ 300.
Proof.
  intros kws.
  apply (proj2 (avg_cpc_bounds kws) [(30000 # 20000)%Q; (60000 # 20000)%Q]
           (15 # 10)%Q 3%Q).
  - by vm_compute.
  - done.
  - repeat constructor; by vm_compute.
  - by vm_compute.
Defined.

(** ** The ad groups of a plan, read off its inputs *)

Lemma members_of_brand (brand_key competitor_key target_locations : string)
    (kws : list KeywordFull.t) :
  members_of (classify brand_key competitor_key target_locations) Brand kws
  = List.filter (key_matches brand_key) kws.
Proof.
  unfold members_of. apply List.filter_ext. intros kw.
  rewrite classify_chain. destruct (key_matches brand_key kw); [done|].
  by repeat case_match.
Qed.

Lemma members_of_competitor (brand_key competitor_key target_locations : string)
    (kws : list KeywordFull.t) :
  members_of (classify brand_key competitor_key target_locations) Competitor kws
  = List.filter
      (λ kw, negb (key_matches brand_key kw) && key_matches competitor_key kw)
      kws.
Proof.
  unfold members_of. apply List.filter_ext. intros kw.
  rewrite classify_chain. destruct (key_matches brand_key kw); [done|].
  destruct (key_matches competitor_key kw); [done|].
  by repeat case_match.
Qed.

Lemma members_of_location_none (brand_key competitor_key : string)
    (kws : list KeywordFull.t) :
  members_of (classify brand_key competitor_key "") Location kws = [].
Proof.
  unfold members_of. apply bool_filter_nil. intros kw _.
  apply bool_decide_eq_false. rewrite classify_chain.
  change (location_matches "" kw) with false. by repeat case_match.
Qed.

(** X10.  In every returned plan the brand group holds, in input
    order, exactly the surviving keywords whose lower-cased text
    contains the non-empty root token of the brand site, and the
    competitor group those among the others that contain the token of
    the competitor site; so the brand group is empty when the brand
    token is empty, the competitor group is empty when no competitor
    site is given, and the location group is empty when the location
    string is empty. *)
Theorem plan_groups_from_inputs (env : Env) (inputs : SEMInputs.t)
    (out : SEMOutput.t) :
  generate_sem_plan env inputs = Ok out →
  let brand_key := clean_domain (SEMInputs.brand_website inputs) in
  let competitor_key :=
    clean_domain (default "" (SEMInputs.competitor_website inputs)) in
  let groups := SEMOutput.searchAdGroups out in
  ∃ keywords_data,
    get_keywords_from_google env (SEMInputs.themes inputs)
      (page_url_of inputs) = Some keywords_data
    ∧ groups !! "Brand & Product Terms"
      = Some (List.filter (key_matches brand_key)
                (keyword_objects keywords_data))
    ∧ groups !! "Competitor Terms"
      = Some (List.filter
                (λ kw, negb (key_matches brand_key kw)
                       && key_matches competitor_key kw)
                (keyword_objects keywords_data))
    ∧ (brand_key = "" → groups !! "Brand & Product Terms" = Some [])
    ∧ (SEMInputs.competitor_website inputs = None ∨ competitor_key = "" →
       groups !! "Competitor Terms" = Some [])
    ∧ (SEMInputs.target_locations inputs = "" →
       groups !! "Location-based Queries" = Some []).
Proof.
  intros (data & pm & ths & Hd & _ & _ & ->)%generate_sem_plan_Ok.
  intros brand_key competitor_key groups. exists data. split; [done|].
  assert (Hb : groups !! "Brand & Product Terms"
               = Some (List.filter (key_matches brand_key)
                         (keyword_objects data))).
  { change "Brand & Product Terms" with (group_name Brand).
    unfold groups. cbn [SEMOutput.searchAdGroups]. by rewrite search_groups_lookup, members_of_brand. }
  assert (Hc : groups !! "Competitor Terms"
               = Some (List.filter
                         (λ kw, negb (key_matches brand_key kw)
                                && key_matches competitor_key kw)
                         (keyword_objects data))).
  { change "Competitor Terms" with (group_name Competitor).
    unfold groups. cbn [SEMOutput.searchAdGroups].
    by rewrite search_groups_lookup, members_of_competitor. }
  split; [done|]. split; [done|]. split.
  { intros He. rewrite Hb, He. f_equal. by apply bool_filter_nil. }
  split.
  { intros He. rewrite Hc. f_equal. apply bool_filter_nil. intros kw _.
    assert (Hk : competitor_key = "").
    { destruct He as [He|He]; [|done]. unfold competitor_key. by rewrite He. }
    rewrite Hk, key_matches_empty. apply andb_false_r. }
  intros Hl. change "Location-based Queries" with (group_name Location).
  unfold groups. cbn [SEMOutput.searchAdGroups]. rewrite search_groups_lookup, Hl.
  by rewrite members_of_location_none.
Qed.

Lemma plan_groups_from_inputs_witness :
  ∃ out, generate_sem_plan sample_env (sample_inputs 100 200 300) = Ok out
         ∧ SEMOutput.searchAdGroups out !! "Competitor Terms" = Some [].
Proof.
  eexists. split; [reflexivity|].
  destruct (plan_groups_from_inputs sample_env (sample_inputs 100 200 300) _
              eq_refl) as (data & _ & _ & _ & _ & Hc & _).
  apply Hc. by left.
Defined.

(** ** The bids grow with the budget *)

Lemma round2_fin_mono (a b : Q) :
  (a <= b)%Q → Py.le (Py.round2 (Py.Fin a)) (Py.round2 (Py.Fin b)).
Proof. intros H. simpl. apply cents_le, round_half_even_mono. lra. Qed.

Lemma target_cpc_mono (b1 b2 total_volume : Z) :
  b1 ≤ b2 →
  ∃ q1 q2,
    target_cpc_of b1 total_volume = Py.Fin q1
    ∧ target_cpc_of b2 total_volume = Py.Fin q2 ∧ (q1 <= q2)%Q.
Proof.
  intros Hb. unfold target_cpc_of, Py.mul_const, conversion_rate.
  case_match; [|exists 0%Q, 0%Q; by split].
  eexists _, _. split; [reflexivity|]. split; [reflexivity|].
  apply cents_le, round_half_even_mono.
  apply Qmult_le_compat_r; [|done]. unfold Qdiv.
  apply Qmult_le_compat_r.
  - apply Qmult_le_compat_r; [|done]. by rewrite <- Zle_Qle.
  - apply Qinv_le_0_compat. change 0%Q with (inject_Z 0).
    rewrite <- Zle_Qle. lia.
Qed.

Lemma min_round_mono (m : Py.float) (q1 q2 : Q) :
  m ≠ Py.NaN → (q1 <= q2)%Q →
  Py.le (Py.round2 (Py.min m (Py.Fin q1))) (Py.round2 (Py.min m (Py.Fin q2))).
Proof.
  intros Hm Hq. unfold Py.min.
  destruct m as [a| | |]; try done.
  - unfold Py.lt.
    destruct (Qlt_le_dec q1 a), (Qlt_le_dec q2 a);
      apply round2_fin_mono; lra.
  - by apply round2_fin_mono.
Qed.

(** X11.  With the same keywords, a larger total budget never lowers
    the target CPC, and never lowers the suggested CPC of a keyword
    whose midpoint is not [nan]. *)
Theorem bids_grow_with_budget (b1 b2 total_volume : Z) (kw : KeywordFull.t) :
  b1 ≤ b2 →
  Py.le (target_cpc_of b1 total_volume) (target_cpc_of b2 total_volume)
  ∧ (cpc_midpoint kw ≠ Some Py.NaN →
     Py.le (suggested_of (target_cpc_of b1 total_volume) kw)
       (suggested_of (target_cpc_of b2 total_volume) kw)).
Proof.
  intros Hb.
  destruct (target_cpc_mono b1 b2 total_volume Hb) as (q1 & q2 & -> & -> & Hq).
  split; [done|]. intros Hm. unfold suggested_of.
  destruct (cpc_midpoint kw) as [m|]; [|done].
  apply min_round_mono; [congruence|done].
Qed.

Lemma bids_grow_with_budget_witness :
  Py.le (target_cpc_of 600 1000) (target_cpc_of 60000 1000)
  ∧ target_cpc_of 600 1000 = Py.Fin (1 # 100)
  ∧ target_cpc_of 60000 1000 = Py.Fin (120 # 100).
Proof.
  split; [|by vm_compute].
  exact (proj1 (bids_grow_with_budget 600 60000 1000
                  (KeywordFull.mk "whey protein" (Some 1000) None None)
                  ltac:(lia))).
Defined.

(** ** google_ads.py: the ranges it prints are the ranges main.py reads *)

Example format_2f_ex :
  (format_2f (Py.Fin (123 # 100)), format_2f (Py.Fin (4 # 1000)),
   format_2f (Py.Fin (16 # 1000)), format_2f (Py.Fin 1234),
   format_2f (Py.Fin (-1 # 2)))
  = ("1.23", "0.00", "0.02", "1234.00", "-0.50").
Proof. by vm_compute. Qed.

Example keyword_entry_ex :
  keyword_entry
    (KeywordIdea.mk "whey protein" (Some 1000) (Some "LOW") (Some 1000000)
       (Some 2000000))
  = KeywordData.mk "whey protein" (Some 1000) (Some "LOW")
      (Some "$1.00 - $2.00").
Proof. by vm_compute. Qed.

Lemma digit_val_digit_char (k : Z) :
  0 ≤ k < 10 → Py.digit_val (digit_char k) = Some k.
Proof.
  intros H.
  assert (Hk : k = 0 ∨ k = 1 ∨ k = 2 ∨ k = 3 ∨ k = 4 ∨ k = 5 ∨ k = 6
               ∨ k = 7 ∨ k = 8 ∨ k = 9) by lia.
  destruct Hk as [->|[->|[->|[->|[->|[->|[->|[->|[->| ->]]]]]]]]]; done.
Qed.

Lemma digit_facts (c : ascii) (v : Z) :
  Py.digit_val c = Some v →
  Py.is_space c = false ∧ c ≠ "-"%char ∧ c ≠ "$"%char ∧ c ≠ "+"%char
  ∧ Py.lower_char c ≠ "i"%char ∧ Py.lower_char c ≠ "n"%char.
Proof.
  destruct c as [[] [] [] [] [] [] [] []]; intros H; try discriminate H;
    by vm_compute.
Qed.

Lemma digits_go_digit (c : ascii) (v acc : Z) (n : nat) (s : string) :
  Py.digit_val c = Some v →
  Py.digits_go acc n (String c s) = Py.digits_go (10 * acc + v) (S n) s.
Proof. intros H. simpl. by rewrite H. Qed.

Lemma uint_chars_digits (d : Decimal.uint) (c : ascii) :
  c ∈ chars (NilEmpty.string_of_uint d) → ∃ v, Py.digit_val c = Some v.
Proof.
  induction d as [|d IH|d IH|d IH|d IH|d IH|d IH|d IH|d IH|d IH|d IH];
    [by intros ?%elem_of_nil
    |intros [->|H]%elem_of_cons; [by eexists|by apply IH] ..].
Qed.

Lemma digits_go_uint (d : Decimal.uint) (acc : nat) (k : nat) (rest : string) :
  (∀ a n, Py.digits_go a n rest = (a, n, rest)) →
  Py.digits_go (Z.of_nat acc) k (NilEmpty.string_of_uint d +:+ rest)
  = (Z.of_nat (Nat.of_uint_acc d acc), (k + Decimal.nb_digits d)%nat, rest).
Proof.
  intros Hrest. revert acc k.
  induction d as [|d IH|d IH|d IH|d IH|d IH|d IH|d IH|d IH|d IH|d IH];
    intros acc k;
    [ simpl; change ("" +:+ rest) with rest; rewrite Hrest;
      by rewrite Nat.add_0_r
    | cbn [NilEmpty.string_of_uint Nat.of_uint_acc Decimal.nb_digits];
      rewrite append_cons; erewrite digits_go_digit by reflexivity;
      match goal with
      | |- context [Nat.of_uint_acc d ?a] =>
          replace (10 * Z.of_nat acc + _) with (Z.of_nat a)
            by (rewrite Nat.tail_mul_spec; set (x := nat_of_ascii _);
                vm_compute in x; subst x; lia)
      end;
      rewrite IH; f_equal; f_equal; lia .. ].
Qed.

Lemma strip_no_blank (s : string) :
  (∀ c, c ∈ chars s → Py.is_space c = false) → Py.strip s = s.
Proof.
  intros H. unfold Py.strip. rewrite (lstrip_no_blank s H).
  by apply rstrip_no_blank.
Qed.

Lemma strip_float_no_blank (s : string) :
  (∀ c, c ∈ chars s → Py.is_space c = false) → Py.strip_float s = s.
Proof.
  intros H.
  assert (Hl : ∀ t, (∀ c, c ∈ chars t → Py.is_space c = false) →
                    Py.lstrip_float t = t).
  { intros [|c t] Ht; [done|]. simpl.
    destruct (Py.is_float_space c) eqn:Hc; [|done].
    apply float_space_is_space in Hc. rewrite Ht in Hc; [done|by left]. }
  unfold Py.strip_float. rewrite (Hl s H), Hl; [apply rev_rev|].
  intros c Hc. by apply H, rev_chars.
Qed.

Lemma to_uint_nonnil (n : nat) : Nat.to_uint n ≠ Decimal.Nil.
Proof.
  intros E. pose proof (DecimalNat.Unsigned.of_to n) as H.
  rewrite E in H. simpl in H. subst n. discriminate E.
Qed.

Lemma uint_text_head (d : Decimal.uint) :
  d ≠ Decimal.Nil →
  ∃ c s v, NilEmpty.string_of_uint d = String c s ∧ Py.digit_val c = Some v.
Proof. destruct d; [done|by eexists _, _, _ ..]. Qed.

Lemma digitpart_digits_go (c : ascii) (v acc : Z) (s : string) :
  Py.digit_val c = Some v →
  Py.digitpart acc (String c s) = Some (Py.digits_go acc 0 (String c s)).
Proof. intros H. simpl. by rewrite H. Qed.

Lemma float_of_decimal_text (d : Decimal.uint) (k1 k2 : Z) :
  d ≠ Decimal.Nil → 0 ≤ k1 < 10 → 0 ≤ k2 < 10 →
  let text :=
    NilEmpty.string_of_uint d
    +:+ String "." (String (digit_char k1) (String (digit_char k2) "")) in
  Py.float_of_str text
  = Some (Py.Fin (Py.scale (10 * (10 * Z.of_nat (Nat.of_uint d) + k1) + k2)
                    (-2)))
  ∧ plain text.
Proof.
  intros Hd Hk1 Hk2 text.
  pose proof (digit_val_digit_char k1 Hk1) as Hv1.
  pose proof (digit_val_digit_char k2 Hk2) as Hv2.
  assert (Hchars : ∀ c, c ∈ chars text →
            (∃ v, Py.digit_val c = Some v) ∨ c = "."%char).
  { intros c. unfold text. rewrite append_chars, elem_of_app.
    intros [H|H]; [left; by eapply uint_chars_digits|].
    apply elem_of_cons in H as [->|H]; [by right|].
    apply elem_of_cons in H as [->|H]; [left; by eexists|].
    apply list_elem_of_singleton in H as ->. left. by eexists. }
  assert (Hplain : plain text).
  { intros c [[v Hv]| ->]%Hchars; [|done].
    destruct (digit_facts c v Hv) as (? & ? & ? & _). done. }
  split; [|done].
  assert (Hstrip : Py.strip_float text = text).
  { apply strip_float_no_blank. intros c Hc.
    by apply Hplain in Hc as (_ & _ & ?). }
  destruct (uint_text_head d Hd) as (c & s & v & Hs & Hv).
  destruct (digit_facts c v Hv) as (_ & Hm & _ & Hp & Hi & Hn).
  assert (Htext : text
                  = String c (s +:+ String "." (String (digit_char k1)
                                                  (String (digit_char k2) "")))).
  { unfold text. by rewrite Hs. }
  assert (Hsign : Py.split_sign text = (false, text)).
  { rewrite Htext. unfold Py.split_sign.
    by rewrite !decide_False by done. }
  assert (Hnum : Py.number text
                 = Some (10 * (10 * Z.of_nat (Nat.of_uint d) + k1) + k2,
                         2%nat, "")).
  { unfold Py.number.
    assert (H0 : Py.digitpart 0 text
                 = Some (Z.of_nat (Nat.of_uint d), Decimal.nb_digits d,
                         String "." (String (digit_char k1)
                                       (String (digit_char k2) "")))).
    { rewrite Htext, (digitpart_digits_go c v) by done. rewrite <- Htext.
      unfold text. by rewrite (digits_go_uint d 0 0). }
    rewrite H0. rewrite decide_True by done.
    rewrite (digitpart_digits_go _ k1) by done.
    rewrite (digits_go_digit _ k1) by done.
    by rewrite (digits_go_digit _ k2) by done. }
  unfold Py.float_of_str. rewrite Hstrip, Hsign. cbv beta iota.
  rewrite decide_False.
  2:{ rewrite Htext. simpl. intros [H|H]; injection H as H _; congruence. }
  rewrite decide_False.
  2:{ rewrite Htext. simpl. intros H; injection H as H _; congruence. }
  by rewrite Hnum.
Qed.

Lemma round_half_even_near (q : Q) :
  (inject_Z (Py.round_half_even q) - q <= 1 # 2
   ∧ q - inject_Z (Py.round_half_even q) <= 1 # 2)%Q.
Proof.
  pose proof (Qfloor_le q) as H1. pose proof (Qlt_floor q) as H2.
  rewrite inject_Z_plus in H2. change (inject_Z 1) with 1%Q in H2.
  unfold Py.round_half_even.
  destruct (Qcompare_spec (q - inject_Z (Qfloor q)) (1 # 2)) as [H|H|H];
    try destruct (Z.even (Qfloor q));
    rewrite ?inject_Z_plus; change (inject_Z 1) with 1%Q; lra.
Qed.

Lemma scale_cents (c : Z) : (Py.scale c (-2) == c # 100)%Q.
Proof. unfold Py.scale. simpl. unfold Qeq. simpl. lia. Qed.

Lemma micros_bid (m : Z) :
  Py.div_pos (Py.of_int m) 1000000 = Py.Fin (inject_Z m * (1 # 1000000)).
Proof. done. Qed.

Lemma format_2f_value (q : Q) :
  (0 <= q)%Q →
  Py.float_of_str (format_2f (Py.Fin q))
  = Some (Py.Fin (Py.scale (Py.round_half_even (q * 100)) (-2)))
  ∧ plain (format_2f (Py.Fin q)).
Proof.
  intros Hq.
  rewrite <- (round_half_even_comp (Qabs q * 100) (q * 100))
    by (by rewrite Qabs_pos).
  set (c := Py.round_half_even (Qabs q * 100)).
  assert (Hc : 0 ≤ c).
  { apply round_half_even_nonneg. rewrite Qabs_pos by done. lra. }
  assert (Hfmt : format_2f (Py.Fin q)
                 = NilEmpty.string_of_uint (Nat.to_uint (Z.to_nat (c / 100)))
                   +:+ String "." (String (digit_char (c / 10 mod 10))
                                     (String (digit_char (c mod 10)) ""))).
  { unfold format_2f. fold c. destruct (Qlt_le_dec q 0) as [Hlt|_]; [lra|done]. }
  rewrite Hfmt.
  destruct (float_of_decimal_text (Nat.to_uint (Z.to_nat (c / 100)))
              (c / 10 mod 10) (c mod 10)) as [Hf Hp].
  { apply to_uint_nonnil. }
  { apply Z.mod_pos_bound. lia. }
  { apply Z.mod_pos_bound. lia. }
  split; [|done].
  rewrite Hf, DecimalNat.Unsigned.of_to. do 3 f_equal.
  rewrite Z2Nat.id by (apply Z.div_pos; lia).
  pose proof (Z.div_mod c 10 ltac:(lia)) as E1.
  pose proof (Z.div_mod (c / 10) 10 ltac:(lia)) as E2.
  rewrite Z.div_div in E2 by lia. change (10 * 10) with 100 in E2. lia.
Qed.

Lemma count_char_append (c : ascii) (s t : string) :
  count_char c (s +:+ t) = (count_char c s + count_char c t)%nat.
Proof.
  unfold count_char. by rewrite append_chars, List.filter_app, length_app.
Qed.

Lemma bid_of_micros_Some (micros : option Z) (x : Py.float) :
  bid_of_micros micros = Some x ↔
  ∃ m, micros = Some m ∧ m ≠ 0 ∧ x = Py.Fin (inject_Z m * (1 # 1000000))
       ∧ float_truthy x = true.
Proof.
  unfold bid_of_micros, Py.truthy_int. split.
  - destruct micros as [m|]; [|done]. case_bool_decide as Hm; [|done].
    intros [= <-]. exists m. do 3 (split; [done|]).
    simpl. apply negb_true_iff, not_true_is_false.
    intros Heq%Qeq_bool_iff. apply Hm.
    unfold Qeq in Heq. simpl in Heq. lia.
  - intros (m & -> & Hm & -> & _). by rewrite bool_decide_true.
Qed.

Lemma bid_of_micros_None (micros : option Z) :
  bid_of_micros micros = None ↔ micros = None ∨ micros = Some 0.
Proof.
  unfold bid_of_micros, Py.truthy_int.
  destruct micros as [m|]; [|by split; [left|]].
  case_bool_decide as Hm; split; try done.
  - intros [|[= ->]]; done.
  - intros _. right. f_equal. by destruct (decide (m = 0)).
Qed.

Lemma cpc_range_of_micros (low high : option Z) :
  cpc_range_of (bid_of_micros low) (bid_of_micros high)
  = match bid_of_micros low, bid_of_micros high with
    | Some x, Some y => Some ("$" +:+ format_2f x +:+ " - $" +:+ format_2f y)
    | _, _ => None
    end.
Proof.
  unfold cpc_range_of.
  destruct (bid_of_micros low) as [x|] eqn:Hx; [|done].
  destruct (bid_of_micros high) as [y|] eqn:Hy; [|done].
  apply bid_of_micros_Some in Hx as (_ & _ & _ & _ & ->).
  by apply bid_of_micros_Some in Hy as (_ & _ & _ & _ & ->).
Qed.

Lemma range_nonempty (a b : string) : "$" +:+ a +:+ " - $" +:+ b ≠ "".
Proof. done. Qed.

Lemma positive_bids_midpoint_value (idea : KeywordIdea.t) (l h : Z) :
  KeywordIdea.low_top_of_page_bid_micros idea = Some l →
  KeywordIdea.high_top_of_page_bid_micros idea = Some h →
  0 < l → 0 < h →
  ∃ m, cpc_midpoint (to_KeywordFull (keyword_entry idea)) = Some (Py.Fin m)
       ∧ (m == ((Py.round_half_even (inject_Z l * (1 # 1000000) * 100) # 100)
                + (Py.round_half_even (inject_Z h * (1 # 1000000) * 100) # 100))
               * (1 # 2))%Q.
Proof.
  intros Hl Hh Hlpos Hhpos.
  assert (Hpos : ∀ z : Z, 0 < z → (0 <= inject_Z z * (1 # 1000000))%Q).
  { intros z Hz. unfold Qle. simpl. lia. }
  destruct (format_2f_value _ (Hpos l Hlpos)) as [Hfl Hpl].
  destruct (format_2f_value _ (Hpos h Hhpos)) as [Hfh Hph].
  eexists. split.
  - apply cpc_midpoint_spec. eexists. split; [|split].
    + unfold keyword_entry, to_KeywordFull. simpl. rewrite Hl, Hh.
      rewrite cpc_range_of_micros. unfold bid_of_micros, Py.truthy_int.
      rewrite !bool_decide_true by lia. rewrite !micros_bid. reflexivity.
    + apply range_nonempty.
    + by rewrite (dollar_range_parses _ _ _ _ Hpl Hph Hfl Hfh).
  - rewrite !scale_cents. reflexivity.
Qed.

(** X12.  The range text written for an idea is the text the plan
    reads.  When both top-of-page bids of an idea are positive, the
    entry built for it carries a range whose midpoint [main.py] parses:
    it is the mean of two non-negative amounts in whole cents, each
    within half a cent of the corresponding bid in currency units, so
    the midpoint is within half a cent of the mean of the two bids. *)
Theorem printed_range_round_trip (idea : KeywordIdea.t) (l h : Z) :
  KeywordIdea.low_top_of_page_bid_micros idea = Some l →
  KeywordIdea.high_top_of_page_bid_micros idea = Some h →
  0 < l → 0 < h →
  ∃ (cl ch : Z) (m : Q),
    cpc_midpoint (to_KeywordFull (keyword_entry idea)) = Some (Py.Fin m)
    ∧ 0 ≤ cl ∧ 0 ≤ ch
    ∧ (m == ((cl # 100) + (ch # 100)) / 2)%Q
    ∧ (Qabs ((cl # 100) - (l # 1000000)) <= 1 # 200)%Q
    ∧ (Qabs ((ch # 100) - (h # 1000000)) <= 1 # 200)%Q
    ∧ (Qabs (m - ((l # 1000000) + (h # 1000000)) / 2) <= 1 # 200)%Q.
Proof.
  intros Hl Hh Hlpos Hhpos.
  destruct (positive_bids_midpoint_value idea l h Hl Hh Hlpos Hhpos)
    as (m & Hm & Hmv).
  assert (Hq : ∀ z : Z, (inject_Z z * (1 # 1000000) == z # 1000000)%Q).
  { intros z. unfold Qeq. simpl. lia. }
  assert (Hcents : ∀ z : Z, 0 < z →
            let c := Py.round_half_even (inject_Z z * (1 # 1000000) * 100) in
            0 ≤ c ∧ (Qabs ((c # 100) - (z # 1000000)) <= 1 # 200)%Q).
  { intros z Hz c.
    destruct (round_half_even_near (inject_Z z * (1 # 1000000) * 100))
      as [H1 H2]. fold c in H1, H2.
    assert (Hpos : (0 <= inject_Z z * (1 # 1000000) * 100)%Q).
    { unfold Qle. simpl. lia. }
    split; [by apply round_half_even_nonneg|].
    assert (Hc : (c # 100 == inject_Z c * (1 # 100))%Q).
    { unfold Qeq. simpl. lia. }
    rewrite Hc, <- Hq. apply Qabs_Qle_condition. split; lra. }
  destruct (Hcents l Hlpos) as [Hcl Hnl]. destruct (Hcents h Hhpos) as [Hch Hnh].
  exists (Py.round_half_even (inject_Z l * (1 # 1000000) * 100)),
    (Py.round_half_even (inject_Z h * (1 # 1000000) * 100)), m.
  split; [done|]. do 2 (split; [done|]).
  split; [by rewrite Hmv|]. do 2 (split; [done|]).
  rewrite Hmv.
  apply Qabs_Qle_condition in Hnl as [Hl1 Hl2].
  apply Qabs_Qle_condition in Hnh as [Hh1 Hh2].
  set (A := (Py.round_half_even _ # 100)%Q) in *.
  set (B := (Py.round_half_even _ # 100)%Q) in *.
  set (L := (l # 1000000)%Q) in *. set (H := (h # 1000000)%Q) in *.
  clearbody A B L H. unfold Qdiv. change (/ 2)%Q with (1 # 2)%Q.
  apply Qabs_Qle_condition. split; lra.
Qed.

Lemma printed_range_round_trip_witness :
  ∃ (cl ch : Z) (m : Q),
    cpc_midpoint (to_KeywordFull (keyword_entry
      (KeywordIdea.mk "whey protein" (Some 1200) (Some "HIGH")
         (Some 1234567) (Some 2000000)))) = Some (Py.Fin m)
    ∧ 0 ≤ cl ∧ 0 ≤ ch
    ∧ (m == ((cl # 100) + (ch # 100)) / 2)%Q
    ∧ (Qabs ((cl # 100) - (1234567 # 1000000)) <= 1 # 200)%Q
    ∧ (Qabs ((ch # 100) - (2000000 # 1000000)) <= 1 # 200)%Q
    ∧ (Qabs (m - ((1234567 # 1000000) + (2000000 # 1000000)) / 2) <= 1 # 200)%Q.
Proof.
  apply (printed_range_round_trip
           (KeywordIdea.mk "whey protein" (Some 1200) (Some "HIGH")
              (Some 1234567) (Some 2000000)) 1234567 2000000);
    [reflexivity|reflexivity|lia|lia].
Defined.

Lemma range_hyphens (a b : string) :
  count_char "-" ("$" +:+ a +:+ " - $" +:+ b)
  = S (count_char "-" a + count_char "-" b).
Proof.
  rewrite !count_char_append.
  change (count_char "-" "$") with 0%nat.
  change (count_char "-" " - $") with 1%nat. lia.
Qed.

Lemma negative_format_hyphen (q : Q) :
  (q < 0)%Q → (1 ≤ count_char "-" (format_2f (Py.Fin q)))%nat.
Proof.
  intros Hq. unfold format_2f.
  destruct (Qlt_le_dec q 0) as [_|Hle]; [|lra].
  rewrite count_char_append. change (count_char "-" "-") with 1%nat. lia.
Qed.

Lemma hyphens_unreadable (r : string) :
  (2 ≤ count_char "-" r)%nat → parse_cpc_range r = None.
Proof.
  intros Hc. destruct (parse_cpc_range r) as [m|] eqn:Hp; [|done].
  apply parse_cpc_range_spec in Hp as (p1 & p2 & _ & _ & Hs & _).
  apply (f_equal length) in Hs. rewrite split_on_length in Hs.
  simpl in Hs. lia.
Qed.

(** X13.  Which ideas give the plan a CPC midpoint.  The entry of an
    idea has no range exactly when one of its two top-of-page bids is
    missing or zero; and the plan reads a midpoint from the entry
    exactly when both bids are present and positive (a negative bid is
    printed with its sign, which the reader takes for a further
    separator, so such a range is dropped). *)
Theorem midpoint_iff_positive_bids (idea : KeywordIdea.t) :
  (KeywordData.cpc_range (keyword_entry idea) = None ↔
     KeywordIdea.low_top_of_page_bid_micros idea = None
     ∨ KeywordIdea.low_top_of_page_bid_micros idea = Some 0
     ∨ KeywordIdea.high_top_of_page_bid_micros idea = None
     ∨ KeywordIdea.high_top_of_page_bid_micros idea = Some 0)
  ∧ (is_Some (cpc_midpoint (to_KeywordFull (keyword_entry idea))) ↔
     ∃ l h, KeywordIdea.low_top_of_page_bid_micros idea = Some l
            ∧ KeywordIdea.high_top_of_page_bid_micros idea = Some h
            ∧ 0 < l ∧ 0 < h).
Proof.
  set (low := KeywordIdea.low_top_of_page_bid_micros idea).
  set (high := KeywordIdea.high_top_of_page_bid_micros idea).
  assert (Hr : KeywordData.cpc_range (keyword_entry idea)
               = cpc_range_of (bid_of_micros low) (bid_of_micros high)) by done.
  rewrite cpc_range_of_micros in Hr. split.
  - rewrite Hr. pose proof (bid_of_micros_None low) as Hl.
    pose proof (bid_of_micros_None high) as Hh.
    destruct (bid_of_micros low) as [x|], (bid_of_micros high) as [y|];
      split; try done.
    + intros Hc. assert (Hn : Some x = None ∨ Some y = None) by tauto.
      by destruct Hn.
    + intros _. destruct (proj1 Hh eq_refl); tauto.
    + intros _. destruct (proj1 Hl eq_refl); tauto.
    + intros _. destruct (proj1 Hl eq_refl); tauto.
  - split.
    + intros [m Hm]. apply cpc_midpoint_spec in Hm as (r & Hk & _ & Hp).
      change (KeywordFull.cpc_range (to_KeywordFull (keyword_entry idea)))
        with (KeywordData.cpc_range (keyword_entry idea)) in Hk.
      rewrite Hr in Hk.
      destruct (bid_of_micros low) as [x|] eqn:Hx; [|done].
      destruct (bid_of_micros high) as [y|] eqn:Hy; [|done].
      injection Hk as <-.
      apply bid_of_micros_Some in Hx as (l & Hl & Hl0 & -> & _).
      apply bid_of_micros_Some in Hy as (h & Hh & Hh0 & -> & _).
      exists l, h. do 2 (split; [done|]).
      destruct (decide (0 < l)) as [Hlp|Hln];
        [destruct (decide (0 < h)) as [Hhp|Hhn]; [done|]|]; exfalso.
      * rewrite hyphens_unreadable in Hp; [done|]. rewrite range_hyphens.
        assert (Hc : (inject_Z h * (1 # 1000000) < 0)%Q)
          by (unfold Qlt; simpl; lia).
        apply negative_format_hyphen in Hc. lia.
      * rewrite hyphens_unreadable in Hp; [done|]. rewrite range_hyphens.
        assert (Hc : (inject_Z l * (1 # 1000000) < 0)%Q)
          by (unfold Qlt; simpl; lia).
        apply negative_format_hyphen in Hc. lia.
    + intros (l & h & Hl & Hh & Hlp & Hhp).
      destruct (positive_bids_midpoint_value idea l h Hl Hh Hlp Hhp)
        as (m & Hm & _). by exists (Py.Fin m).
Qed.







(** ** More on the recovery of JSON from a response text *)

(** X15.  Blanks around a response text play no part: with a JSON
    reader that rejects the empty text (as [json.loads] does), the
    value recovered from a text is the value recovered from the text
    stripped of its leading and trailing blanks; a text of blanks only
    gives the empty object. *)
Theorem parse_llm_json_ignores_blanks (loads : string → option json)
    (text : string) :
  loads "" = None →
  parse_llm_json loads (Py.strip text) = parse_llm_json loads text
  ∧ (Py.strip text = "" → parse_llm_json loads text = JObj []).
Proof.
  intros Hempty.
  assert (Hblank : Py.strip text = "" → parse_llm_json loads text = JObj []).
  { intros Hs. unfold parse_llm_json, Py.truthy.
    case_bool_decide; [|done]. simpl. by rewrite Hs, Hempty. }
  split; [|done].
  destruct (decide (Py.strip text = "")) as [Hs|Hs].
  - rewrite (Hblank Hs). by rewrite Hs.
  - unfold parse_llm_json, Py.truthy.
    rewrite (bool_decide_true (Py.strip text ≠ "")) by done.
    rewrite (bool_decide_true (text ≠ "")) by (by intros ->).
    simpl. by rewrite strip_idem.
Qed.

Lemma parse_llm_json_ignores_blanks_witness :
  parse_llm_json (stub_json_loads [("[]", JArr [])]) (Py.strip "  []  ")
  = parse_llm_json (stub_json_loads [("[]", JArr [])]) "  []  "
  ∧ (Py.strip "  []  " = "" →
     parse_llm_json (stub_json_loads [("[]", JArr [])]) "  []  " = JObj []).
Proof.
  apply (parse_llm_json_ignores_blanks (stub_json_loads [("[]", JArr [])])).
  reflexivity.
Defined.

(** ** Match types by ad-group name *)

(** X16.  [suggest_match_types] reads a group name without regard to
    case and always proposes one or two distinct match types among
    Exact, Phrase and Broad; Broad is proposed only for a name that
    mentions "informational" and none of "brand", "competitor" and
    "category"; and each of the five group names of a plan gets two
    match types, Phrase first for the category and informational
    groups and Exact first for the others. *)
Theorem match_types_by_group_name (name : string) :
  suggest_match_types (Py.lower name) = suggest_match_types name
  ∧ suggest_match_types name ≠ []
  ∧ NoDup (suggest_match_types name)
  ∧ (∀ t, t ∈ suggest_match_types name → t ∈ ["Exact"; "Phrase"; "Broad"])
  ∧ ("Broad" ∈ suggest_match_types name →
     Py.contains "informational" (Py.lower name) = true
     ∧ Py.contains "brand" (Py.lower name) = false
     ∧ Py.contains "competitor" (Py.lower name) = false
     ∧ Py.contains "category" (Py.lower name) = false)
  ∧ (∀ g, suggest_match_types (group_name g)
          = match g with
            | Category => ["Phrase"; "Exact"]
            | Informational => ["Phrase"; "Broad"]
            | _ => ["Exact"; "Phrase"]
            end).
Proof.
  split; [unfold suggest_match_types; by rewrite lower_idem|].
  assert (Hcases : suggest_match_types name = ["Exact"; "Phrase"]
                   ∨ suggest_match_types name = ["Phrase"; "Exact"]
                   ∨ suggest_match_types name = ["Exact"]
                   ∨ (suggest_match_types name = ["Phrase"; "Broad"]
                      ∧ Py.contains "informational" (Py.lower name) = true
                      ∧ Py.contains "brand" (Py.lower name) = false
                      ∧ Py.contains "competitor" (Py.lower name) = false
                      ∧ Py.contains "category" (Py.lower name) = false)).
  { unfold suggest_match_types.
    destruct (Py.contains "brand" (Py.lower name));
      destruct (Py.contains "competitor" (Py.lower name));
      destruct (Py.contains "category" (Py.lower name));
      destruct (Py.contains "informational" (Py.lower name));
      destruct (Py.contains "location" (Py.lower name)); simpl; tauto. }
  split; [destruct Hcases as [->|[->|[->|[-> _]]]]; done|].
  split.
  { destruct Hcases as [->|[->|[->|[-> _]]]];
      apply (bool_decide_unpack _); by vm_compute. }
  split.
  { intros t.
    destruct Hcases as [->|[->|[->|[-> _]]]]; rewrite !elem_of_cons; tauto. }
  split.
  { destruct Hcases as [->|[->|[->|[-> H]]]]; [| | |done];
      rewrite !elem_of_cons, elem_of_nil; intros Hb;
      repeat (destruct Hb as [Hb|Hb]; [discriminate Hb|]); done. }
  by intros [].
Qed.

(** ** Bid suggestions on the records a plan receives *)






(** A budget beyond the doubles: with the surviving keyword of the
    sample data the target CPC cannot be computed and the plan raises
    [OverflowError]; a budget that converts gives a plan. *)
Example budget_beyond_doubles :
  generate_sem_plan sample_env (sample_inputs (10 ^ 400) 0 0)
  = Raise OverflowError
  ∧ ∃ out, generate_sem_plan sample_env (sample_inputs (10 ^ 300) 0 0)
           = Ok out.
Proof. split; [by vm_compute|]. eexists. by vm_compute. Qed.
